(** * Pan-Tompkins QRS detection and beat extraction

    A shallow embedding of [preprocessing_with_beats/pan_tompkins.py]:
    the filter cascade [Pan_Tompkins_QRS], the adaptive detector
    [R_peak_extractor] and the beat windower [extract_beats].

    Modelling conventions.
    - A numpy float64 sample is a [num]: an exact rational or one of the
      IEEE special values (+inf, -inf, NaN).  Arithmetic on finite values
      is exact (binary rounding and overflow are not modelled) and the two
      zeros are identified; every quotient by zero in the program is 0/0
      or has a non-negative integer divisor, so the sign of a zero never
      decides a result.
    - A Python [int] is a [Z]; a sampling frequency is a [Q].
    - A numpy array or Python list is a [list]; subscripts follow Python
      (negative subscripts count from the end, anything else out of range
      raises [IndexError]); slices clip as Python's do.
    - A Python exception is an [Err] result; once raised it propagates to
      the caller, and the state built so far is lost with it.
    - A [for] loop is a fold of its body over the iterated range. *)

From Stdlib Require Import ZArith QArith Qround Lia Lqa Sorted.
From stdpp Require Import base list.

Local Open Scope Z_scope.

(** ** Exceptions and results *)

(** The exceptions the program's statements can raise, and
    [DegenerateSignal], the failure the specification names for a zero
    normalization divisor; no statement of the program raises it. *)
Inductive exn : Type :=
| IndexError
| ValueError
| OverflowError
| UnboundLocalError
| DegenerateSignal.

Inductive res (A : Type) : Type :=
| Ok (a : A)
| Err (e : exn).

Arguments Ok {A} a.
Arguments Err {A} e.

Definition bind {A B : Type} (m : res A) (k : A -> res B) : res B :=
  match m with
  | Ok a => k a
  | Err e => Err e
  end.

Notation "x <- m ;; k" := (bind m (fun x => k))
  (at level 100, m at next level, right associativity).

Definition is_ok {A : Type} (m : res A) : bool :=
  match m with Ok _ => true | Err _ => false end.

(** [for x in xs: s = body x s] *)
Fixpoint for_each {X S : Type} (xs : list X) (body : X -> S -> res S) (s : S)
  : res S :=
  match xs with
  | [] => Ok s
  | x :: xs' => s' <- body x s ;; for_each xs' body s'
  end.

(** Elementwise evaluation of a fallible function (a numpy fancy subscript). *)
Fixpoint map_res {X Y : Type} (f : X -> res Y) (xs : list X) : res (list Y) :=
  match xs with
  | [] => Ok []
  | x :: xs' => y <- f x ;; ys <- map_res f xs' ;; Ok (y :: ys)
  end.

(** ** Python ranges, subscripts and slices *)

(** [range(a, b)] and [np.arange(a, b, 1)]. *)
Definition arange (a b : Z) : list Z :=
  map (fun k => a + Z.of_nat k) (seq 0 (Z.to_nat (b - a))).

Definition len {A : Type} (l : list A) : Z := Z.of_nat (length l).

(** The position a subscript [i] denotes in a sequence of [n] items. *)
Definition norm_index (n i : Z) : option nat :=
  if (0 <=? i) && (i <? n) then Some (Z.to_nat i)
  else if (- n <=? i) && (i <? 0) then Some (Z.to_nat (i + n))
  else None.

(** [l[i]] *)
Definition getitem {A : Type} (l : list A) (i : Z) : res A :=
  match norm_index (len l) i with
  | Some k => match l !! k with Some x => Ok x | None => Err IndexError end
  | None => Err IndexError
  end.

(** [l[i] = v] *)
Definition setitem {A : Type} (l : list A) (i : Z) (v : A) : res (list A) :=
  match norm_index (len l) i with
  | Some k => Ok (<[k := v]> l)
  | None => Err IndexError
  end.

(** One bound of a slice, brought into [0 .. n]. *)
Definition clip_bound (n i : Z) : Z :=
  if i <? 0 then Z.max 0 (i + n) else Z.min i n.

(** [l[start:stop]] *)
Definition slice {A : Type} (l : list A) (start stop : Z) : list A :=
  let s := clip_bound (len l) start in
  let e := clip_bound (len l) stop in
  take (Z.to_nat (e - s)) (drop (Z.to_nat s) l).

(** [l[start:]] *)
Definition slice_from {A : Type} (l : list A) (start : Z) : list A :=
  drop (Z.to_nat (clip_bound (len l) start)) l.

(** ** Samples *)

Inductive num : Type :=
| Fin (q : Q)
| PInf
| NInf
| NaN.

Definition of_Z (z : Z) : num := Fin (inject_Z z).

Definition Qsgn (q : Q) : Z := Z.sgn (Qnum q).

Definition inf_of_sign (s : Z) : num :=
  match s with
  | Z0 => NaN
  | Zpos _ => PInf
  | Zneg _ => NInf
  end.

Definition fneg (a : num) : num :=
  match a with
  | Fin x => Fin (Qred (- x))
  | PInf => NInf
  | NInf => PInf
  | NaN => NaN
  end.

Definition fadd (a b : num) : num :=
  match a, b with
  | NaN, _ | _, NaN => NaN
  | Fin x, Fin y => Fin (Qred (x + y))
  | PInf, NInf | NInf, PInf => NaN
  | PInf, _ | _, PInf => PInf
  | NInf, _ | _, NInf => NInf
  end.

Definition fsub (a b : num) : num := fadd a (fneg b).

Definition fsign (a : num) : Z :=
  match a with
  | Fin x => Qsgn x
  | PInf => 1
  | NInf => -1
  | NaN => 0
  end.

Definition fmul (a b : num) : num :=
  match a, b with
  | NaN, _ | _, NaN => NaN
  | Fin x, Fin y => Fin (Qred (x * y))
  | _, _ => inf_of_sign (fsign a * fsign b)
  end.

Definition fdiv (a b : num) : num :=
  match a, b with
  | NaN, _ | _, NaN => NaN
  | Fin x, Fin y =>
      if Qeq_bool y 0 then inf_of_sign (Qsgn x) else Fin (Qred (x / y))
  | Fin _, _ => Fin 0
  | _, Fin y => if Qeq_bool y 0 then a else inf_of_sign (fsign a * Qsgn y)
  | _, _ => NaN
  end.

Definition fltb (a b : num) : bool :=
  match a, b with
  | NaN, _ | _, NaN => false
  | Fin x, Fin y => negb (Qle_bool y x)
  | _, NInf => false
  | NInf, _ => true
  | PInf, _ => false
  | _, PInf => true
  end.

Definition feqb (a b : num) : bool :=
  match a, b with
  | Fin x, Fin y => Qeq_bool x y
  | PInf, PInf | NInf, NInf => true
  | _, _ => false
  end.

Definition fgtb (a b : num) : bool := fltb b a.
Definition fgeb (a b : num) : bool := fltb b a || feqb a b.
Definition fneb (a b : num) : bool := negb (feqb a b).

(** Python's built-in [round] to an integer: ties go to the even
    neighbour. *)
Definition py_round (q : Q) : Z :=
  let f := Qfloor q in
  let d := (q - inject_Z f)%Q in
  if Qle_bool d (1 # 2)
  then (if Qeq_bool d (1 # 2) then (if Z.even f then f else f + 1) else f)
  else f + 1.

(** Python's [int] of a number: truncation towards zero. *)
Definition py_int (q : Q) : Z :=
  if Qle_bool 0 q then Qfloor q else Qceiling q.

(** [round] of a float64: NaN and infinities have no integer value. *)
Definition round_num (a : num) : res Z :=
  match a with
  | Fin q => Ok (py_round q)
  | NaN => Err ValueError
  | _ => Err OverflowError
  end.

(** The built-in [max(xs)]: the first item not exceeded by a later one
    under [>]; an empty argument raises [ValueError]. *)
Definition max2 (a b : num) : num := if fgtb b a then b else a.
Definition min2 (a b : num) : num := if fltb b a then b else a.

Definition pymax (xs : list num) : res num :=
  match xs with
  | [] => Err ValueError
  | x :: xs' => Ok (foldl max2 x xs')
  end.

Definition pymin (xs : list num) : res num :=
  match xs with
  | [] => Err ValueError
  | x :: xs' => Ok (foldl min2 x xs')
  end.

(** [max(xs, default=d)] *)
Definition pymax_default (xs : list num) (d : num) : num :=
  match xs with
  | [] => d
  | x :: xs' => foldl max2 x xs'
  end.

(** [np.diff] of a float array and of an integer sequence. *)
Fixpoint np_diff (xs : list num) : list num :=
  match xs with
  | x :: (y :: _) as xs' => fsub y x :: np_diff xs'
  | _ => []
  end.

Fixpoint np_diffZ (xs : list Z) : list Z :=
  match xs with
  | x :: (y :: _) as xs' => (y - x) :: np_diffZ xs'
  | _ => []
  end.

(** [np.mean]: the sum over the count, NaN for an empty array. *)
Definition np_mean (xs : list num) : num :=
  fdiv (foldl fadd (Fin 0) xs) (of_Z (len xs)).

(** [(xs > t).nonzero()[0]]: the positions whose item exceeds [t]. *)
Definition positions_gt (xs : list num) (t : num) : list Z :=
  map (fun p => Z.of_nat p.1)
      (filter (fun p => fgtb p.2 t = true) (imap (fun i x => (i, x)) xs)).

(** [(xs == v).nonzero()[0]] *)
Definition positions_eq (xs : list num) (v : num) : list Z :=
  map (fun p => Z.of_nat p.1)
      (filter (fun p => feqb p.2 v = true) (imap (fun i x => (i, x)) xs)).

(** [l[i] += v] and [l[i] -= v] on a float array. *)
Definition iadd (l : list num) (i : Z) (v : num) : res (list num) :=
  x <- getitem l i ;; setitem l i (fadd x v).

Definition isub (l : list num) (i : Z) (v : num) : res (list num) :=
  x <- getitem l i ;; setitem l i (fsub x v).

(** [if c: l = body l] *)
Definition when {S : Type} (c : bool) (body : S -> res S) (s : S) : res S :=
  if c then body s else Ok s.

(** ** The filter cascade: class [Pan_Tompkins_QRS] *)

Module Pan_Tompkins_QRS.

Section Filters.

(** [self.freq] *)
Variable freq : Q.

(** The low-pass pass of [band_pass_filter]: the first loop. *)
Definition low_pass_step (signal : list num) (index : Z) (sig : list num)
  : res (list num) :=
  x <- getitem signal index ;;
  sig <- setitem sig index x ;;
  sig <- when (1 <=? index) (fun sig =>
           y <- getitem sig (index - 1) ;;
           iadd sig index (fmul (of_Z 2) y)) sig ;;
  sig <- when (2 <=? index) (fun sig =>
           y <- getitem sig (index - 2) ;;
           isub sig index y) sig ;;
  sig <- when (6 <=? index) (fun sig =>
           y <- getitem signal (index - 6) ;;
           isub sig index (fmul (of_Z 2) y)) sig ;;
  when (12 <=? index) (fun sig =>
           y <- getitem signal (index - 12) ;;
           iadd sig index y) sig.

(** The high-pass pass of [band_pass_filter]: the second loop. *)
Definition high_pass_step (sig : list num) (index : Z) (result : list num)
  : res (list num) :=
  x <- getitem sig index ;;
  result <- setitem result index (fmul (of_Z (-1)) x) ;;
  result <- when (1 <=? index) (fun result =>
           y <- getitem result (index - 1) ;;
           isub result index y) result ;;
  result <- when (16 <=? index) (fun result =>
           y <- getitem sig (index - 16) ;;
           iadd result index (fmul (of_Z 32) y)) result ;;
  when (32 <=? index) (fun result =>
           y <- getitem sig (index - 32) ;;
           iadd result index y) result.

Definition band_pass_filter (signal : list num) : res (list num) :=
  let sig := signal in
  sig <- for_each (arange 0 (len signal)) (low_pass_step signal) sig ;;
  let result := sig in
  result <- for_each (arange 0 (len signal)) (high_pass_step sig) result ;;
  hi <- pymax result ;;
  lo <- pymin result ;;
  let max_val := max2 hi (fneg lo) in
  Ok (map (fun x => fdiv x max_val) result).

Definition derivative_step (signal : list num) (index : Z)
    (result : list num) : res (list num) :=
  result <- setitem result index (of_Z 0) ;;
  result <- when (1 <=? index) (fun result =>
           y <- getitem signal (index - 1) ;;
           isub result index (fmul (of_Z 2) y)) result ;;
  result <- when (2 <=? index) (fun result =>
           y <- getitem signal (index - 2) ;;
           isub result index y) result ;;
  result <- when ((2 <=? index) && (index <=? len signal - 2))
           (fun result =>
           y <- getitem signal (index + 1) ;;
           iadd result index (fmul (of_Z 2) y)) result ;;
  result <- when ((2 <=? index) && (index <=? len signal - 3))
           (fun result =>
           y <- getitem signal (index + 2) ;;
           iadd result index y) result ;;
  x <- getitem result index ;;
  setitem result index (fdiv (fmul x (Fin freq)) (of_Z 8)).

Definition derivative (signal : list num) : res (list num) :=
  for_each (arange 0 (len signal)) (derivative_step signal) signal.

Definition squaring_step (signal : list num) (index : Z)
    (result : list num) : res (list num) :=
  x <- getitem signal index ;;
  setitem result index (fmul x x).

Definition squaring (signal : list num) : res (list num) :=
  for_each (arange 0 (len signal)) (squaring_step signal) signal.

(** [round(0.150 * self.freq)] *)
Definition win_size : Z := py_round (0.150 * freq)%Q.

(** The loops of [moving_window_integration] carry [(sum, result)]. *)
Definition mwi_head_step (signal : list num) (j : Z)
    (st : num * list num) : res (num * list num) :=
  x <- getitem signal j ;;
  let sum := fadd st.1 (fdiv x (of_Z win_size)) in
  result <- setitem st.2 j sum ;;
  Ok (sum, result).

Definition mwi_tail_step (signal : list num) (index : Z)
    (st : num * list num) : res (num * list num) :=
  x <- getitem signal index ;;
  let sum := fadd st.1 (fdiv x (of_Z win_size)) in
  y <- getitem signal (index - win_size) ;;
  let sum := fsub sum (fdiv y (of_Z win_size)) in
  result <- setitem st.2 index sum ;;
  Ok (sum, result).

Definition moving_window_integration (signal : list num)
  : res (list num) :=
  st <- for_each (arange 0 win_size) (mwi_head_step signal)
          (of_Z 0, signal) ;;
  st <- for_each (arange win_size (len signal)) (mwi_tail_step signal) st ;;
  Ok st.2.

(** The dictionary returned by [solve]. *)
Record qrs_dict : Type := {
  bpass : list num;
  der : list num;
  sqr : list num;
  mwin : list num
}.

Definition solve (signal : list num) : res qrs_dict :=
  let input_signal := signal in
  bpass <- band_pass_filter input_signal ;;
  der <- derivative bpass ;;
  sqr <- squaring der ;;
  mwin <- moving_window_integration sqr ;;
  Ok {| bpass := bpass; der := der; sqr := sqr; mwin := mwin |}.

End Filters.

End Pan_Tompkins_QRS.

(** ** The adaptive detector: class [R_peak_extractor] *)

(** A Python local variable, unbound until its first assignment. *)
Inductive local (A : Type) : Type :=
| Unbound
| Bound (v : A).

Arguments Unbound {A}.
Arguments Bound {A} v.

Definition read {A : Type} (x : local A) : res A :=
  match x with
  | Bound v => Ok v
  | Unbound => Err UnboundLocalError
  end.

(** The scan shared by [searchback] and [ecg_searchback]:
    [for pos in todo: if arr[pos] == max(arr[coord]): x = pos; break],
    with [x] keeping its earlier binding when no position matches. *)
Fixpoint scan_first_max (arr : list num) (coord todo : list Z)
    (x : local (option Z)) : res (local (option Z)) :=
  match todo with
  | [] => Ok x
  | pos :: todo' =>
      v <- getitem arr pos ;;
      sub <- map_res (getitem arr) coord ;;
      m <- pymax sub ;;
      if feqb v m then Ok (Bound (Some pos))
      else scan_first_max arr coord todo' x
  end.

(** [np.unique] of an integer array: ascending, each value once. *)
Fixpoint insert_unique (x : Z) (l : list Z) : list Z :=
  match l with
  | [] => [x]
  | y :: l' =>
      if x <? y then x :: l
      else if x =? y then l
      else y :: insert_unique x l'
  end.

Definition np_unique (l : list Z) : list Z := foldr insert_unique [] l.

Module R_peak_extractor.

Record self : Type := {
  RR1 : list num;
  RR2 : list num;
  probable_peaks : list Z;
  r_locs : list Z;
  peaks : list Z;
  result : list Z;
  SPKI : num;
  NPKI : num;
  Threshold_I1 : num;
  Threshold_I2 : num;
  SPKF : num;
  NPKF : num;
  Threshold_F1 : num;
  Threshold_F2 : num;
  T_wave : bool;
  m_win : list num;
  b_pass : list num;
  samp_freq : Q;
  signal : list num;
  win_150ms : Z;
  RR_Low_Limit : num;
  RR_High_Limit : num;
  RR_Missed_Limit : num;
  RR_Average1 : num
}.

(** Attribute assignment [self.f = v], one setter per assigned attribute. *)
Definition set_RR1 (v : list num) (s : self) : self :=
  {| RR1 := v; RR2 := RR2 s; probable_peaks := probable_peaks s;
     r_locs := r_locs s; peaks := peaks s; result := result s;
     SPKI := SPKI s; NPKI := NPKI s; Threshold_I1 := Threshold_I1 s;
     Threshold_I2 := Threshold_I2 s; SPKF := SPKF s; NPKF := NPKF s;
     Threshold_F1 := Threshold_F1 s; Threshold_F2 := Threshold_F2 s;
     T_wave := T_wave s; m_win := m_win s; b_pass := b_pass s;
     samp_freq := samp_freq s; signal := signal s; win_150ms := win_150ms s;
     RR_Low_Limit := RR_Low_Limit s; RR_High_Limit := RR_High_Limit s;
     RR_Missed_Limit := RR_Missed_Limit s; RR_Average1 := RR_Average1 s |}.

Definition set_RR2 (v : list num) (s : self) : self :=
  {| RR1 := RR1 s; RR2 := v; probable_peaks := probable_peaks s;
     r_locs := r_locs s; peaks := peaks s; result := result s;
     SPKI := SPKI s; NPKI := NPKI s; Threshold_I1 := Threshold_I1 s;
     Threshold_I2 := Threshold_I2 s; SPKF := SPKF s; NPKF := NPKF s;
     Threshold_F1 := Threshold_F1 s; Threshold_F2 := Threshold_F2 s;
     T_wave := T_wave s; m_win := m_win s; b_pass := b_pass s;
     samp_freq := samp_freq s; signal := signal s; win_150ms := win_150ms s;
     RR_Low_Limit := RR_Low_Limit s; RR_High_Limit := RR_High_Limit s;
     RR_Missed_Limit := RR_Missed_Limit s; RR_Average1 := RR_Average1 s |}.

Definition set_probable_peaks (v : list Z) (s : self) : self :=
  {| RR1 := RR1 s; RR2 := RR2 s; probable_peaks := v; r_locs := r_locs s;
     peaks := peaks s; result := result s; SPKI := SPKI s; NPKI := NPKI s;
     Threshold_I1 := Threshold_I1 s; Threshold_I2 := Threshold_I2 s;
     SPKF := SPKF s; NPKF := NPKF s; Threshold_F1 := Threshold_F1 s;
     Threshold_F2 := Threshold_F2 s; T_wave := T_wave s; m_win := m_win s;
     b_pass := b_pass s; samp_freq := samp_freq s; signal := signal s;
     win_150ms := win_150ms s; RR_Low_Limit := RR_Low_Limit s;
     RR_High_Limit := RR_High_Limit s; RR_Missed_Limit := RR_Missed_Limit s;
     RR_Average1 := RR_Average1 s |}.

Definition set_r_locs (v : list Z) (s : self) : self :=
  {| RR1 := RR1 s; RR2 := RR2 s; probable_peaks := probable_peaks s;
     r_locs := v; peaks := peaks s; result := result s; SPKI := SPKI s;
     NPKI := NPKI s; Threshold_I1 := Threshold_I1 s;
     Threshold_I2 := Threshold_I2 s; SPKF := SPKF s; NPKF := NPKF s;
     Threshold_F1 := Threshold_F1 s; Threshold_F2 := Threshold_F2 s;
     T_wave := T_wave s; m_win := m_win s; b_pass := b_pass s;
     samp_freq := samp_freq s; signal := signal s; win_150ms := win_150ms s;
     RR_Low_Limit := RR_Low_Limit s; RR_High_Limit := RR_High_Limit s;
     RR_Missed_Limit := RR_Missed_Limit s; RR_Average1 := RR_Average1 s |}.

Definition set_peaks (v : list Z) (s : self) : self :=
  {| RR1 := RR1 s; RR2 := RR2 s; probable_peaks := probable_peaks s;
     r_locs := r_locs s; peaks := v; result := result s; SPKI := SPKI s;
     NPKI := NPKI s; Threshold_I1 := Threshold_I1 s;
     Threshold_I2 := Threshold_I2 s; SPKF := SPKF s; NPKF := NPKF s;
     Threshold_F1 := Threshold_F1 s; Threshold_F2 := Threshold_F2 s;
     T_wave := T_wave s; m_win := m_win s; b_pass := b_pass s;
     samp_freq := samp_freq s; signal := signal s; win_150ms := win_150ms s;
     RR_Low_Limit := RR_Low_Limit s; RR_High_Limit := RR_High_Limit s;
     RR_Missed_Limit := RR_Missed_Limit s; RR_Average1 := RR_Average1 s |}.

Definition set_result (v : list Z) (s : self) : self :=
  {| RR1 := RR1 s; RR2 := RR2 s; probable_peaks := probable_peaks s;
     r_locs := r_locs s; peaks := peaks s; result := v; SPKI := SPKI s;
     NPKI := NPKI s; Threshold_I1 := Threshold_I1 s;
     Threshold_I2 := Threshold_I2 s; SPKF := SPKF s; NPKF := NPKF s;
     Threshold_F1 := Threshold_F1 s; Threshold_F2 := Threshold_F2 s;
     T_wave := T_wave s; m_win := m_win s; b_pass := b_pass s;
     samp_freq := samp_freq s; signal := signal s; win_150ms := win_150ms s;
     RR_Low_Limit := RR_Low_Limit s; RR_High_Limit := RR_High_Limit s;
     RR_Missed_Limit := RR_Missed_Limit s; RR_Average1 := RR_Average1 s |}.

Definition set_SPKI (v : num) (s : self) : self :=
  {| RR1 := RR1 s; RR2 := RR2 s; probable_peaks := probable_peaks s;
     r_locs := r_locs s; peaks := peaks s; result := result s; SPKI := v;
     NPKI := NPKI s; Threshold_I1 := Threshold_I1 s;
     Threshold_I2 := Threshold_I2 s; SPKF := SPKF s; NPKF := NPKF s;
     Threshold_F1 := Threshold_F1 s; Threshold_F2 := Threshold_F2 s;
     T_wave := T_wave s; m_win := m_win s; b_pass := b_pass s;
     samp_freq := samp_freq s; signal := signal s; win_150ms := win_150ms s;
     RR_Low_Limit := RR_Low_Limit s; RR_High_Limit := RR_High_Limit s;
     RR_Missed_Limit := RR_Missed_Limit s; RR_Average1 := RR_Average1 s |}.

Definition set_NPKI (v : num) (s : self) : self :=
  {| RR1 := RR1 s; RR2 := RR2 s; probable_peaks := probable_peaks s;
     r_locs := r_locs s; peaks := peaks s; result := result s;
     SPKI := SPKI s; NPKI := v; Threshold_I1 := Threshold_I1 s;
     Threshold_I2 := Threshold_I2 s; SPKF := SPKF s; NPKF := NPKF s;
     Threshold_F1 := Threshold_F1 s; Threshold_F2 := Threshold_F2 s;
     T_wave := T_wave s; m_win := m_win s; b_pass := b_pass s;
     samp_freq := samp_freq s; signal := signal s; win_150ms := win_150ms s;
     RR_Low_Limit := RR_Low_Limit s; RR_High_Limit := RR_High_Limit s;
     RR_Missed_Limit := RR_Missed_Limit s; RR_Average1 := RR_Average1 s |}.

Definition set_Threshold_I1 (v : num) (s : self) : self :=
  {| RR1 := RR1 s; RR2 := RR2 s; probable_peaks := probable_peaks s;
     r_locs := r_locs s; peaks := peaks s; result := result s;
     SPKI := SPKI s; NPKI := NPKI s; Threshold_I1 := v;
     Threshold_I2 := Threshold_I2 s; SPKF := SPKF s; NPKF := NPKF s;
     Threshold_F1 := Threshold_F1 s; Threshold_F2 := Threshold_F2 s;
     T_wave := T_wave s; m_win := m_win s; b_pass := b_pass s;
     samp_freq := samp_freq s; signal := signal s; win_150ms := win_150ms s;
     RR_Low_Limit := RR_Low_Limit s; RR_High_Limit := RR_High_Limit s;
     RR_Missed_Limit := RR_Missed_Limit s; RR_Average1 := RR_Average1 s |}.

Definition set_Threshold_I2 (v : num) (s : self) : self :=
  {| RR1 := RR1 s; RR2 := RR2 s; probable_peaks := probable_peaks s;
     r_locs := r_locs s; peaks := peaks s; result := result s;
     SPKI := SPKI s; NPKI := NPKI s; Threshold_I1 := Threshold_I1 s;
     Threshold_I2 := v; SPKF := SPKF s; NPKF := NPKF s;
     Threshold_F1 := Threshold_F1 s; Threshold_F2 := Threshold_F2 s;
     T_wave := T_wave s; m_win := m_win s; b_pass := b_pass s;
     samp_freq := samp_freq s; signal := signal s; win_150ms := win_150ms s;
     RR_Low_Limit := RR_Low_Limit s; RR_High_Limit := RR_High_Limit s;
     RR_Missed_Limit := RR_Missed_Limit s; RR_Average1 := RR_Average1 s |}.

Definition set_SPKF (v : num) (s : self) : self :=
  {| RR1 := RR1 s; RR2 := RR2 s; probable_peaks := probable_peaks s;
     r_locs := r_locs s; peaks := peaks s; result := result s;
     SPKI := SPKI s; NPKI := NPKI s; Threshold_I1 := Threshold_I1 s;
     Threshold_I2 := Threshold_I2 s; SPKF := v; NPKF := NPKF s;
     Threshold_F1 := Threshold_F1 s; Threshold_F2 := Threshold_F2 s;
     T_wave := T_wave s; m_win := m_win s; b_pass := b_pass s;
     samp_freq := samp_freq s; signal := signal s; win_150ms := win_150ms s;
     RR_Low_Limit := RR_Low_Limit s; RR_High_Limit := RR_High_Limit s;
     RR_Missed_Limit := RR_Missed_Limit s; RR_Average1 := RR_Average1 s |}.

Definition set_NPKF (v : num) (s : self) : self :=
  {| RR1 := RR1 s; RR2 := RR2 s; probable_peaks := probable_peaks s;
     r_locs := r_locs s; peaks := peaks s; result := result s;
     SPKI := SPKI s; NPKI := NPKI s; Threshold_I1 := Threshold_I1 s;
     Threshold_I2 := Threshold_I2 s; SPKF := SPKF s; NPKF := v;
     Threshold_F1 := Threshold_F1 s; Threshold_F2 := Threshold_F2 s;
     T_wave := T_wave s; m_win := m_win s; b_pass := b_pass s;
     samp_freq := samp_freq s; signal := signal s; win_150ms := win_150ms s;
     RR_Low_Limit := RR_Low_Limit s; RR_High_Limit := RR_High_Limit s;
     RR_Missed_Limit := RR_Missed_Limit s; RR_Average1 := RR_Average1 s |}.

Definition set_Threshold_F1 (v : num) (s : self) : self :=
  {| RR1 := RR1 s; RR2 := RR2 s; probable_peaks := probable_peaks s;
     r_locs := r_locs s; peaks := peaks s; result := result s;
     SPKI := SPKI s; NPKI := NPKI s; Threshold_I1 := Threshold_I1 s;
     Threshold_I2 := Threshold_I2 s; SPKF := SPKF s; NPKF := NPKF s;
     Threshold_F1 := v; Threshold_F2 := Threshold_F2 s; T_wave := T_wave s;
     m_win := m_win s; b_pass := b_pass s; samp_freq := samp_freq s;
     signal := signal s; win_150ms := win_150ms s;
     RR_Low_Limit := RR_Low_Limit s; RR_High_Limit := RR_High_Limit s;
     RR_Missed_Limit := RR_Missed_Limit s; RR_Average1 := RR_Average1 s |}.

Definition set_Threshold_F2 (v : num) (s : self) : self :=
  {| RR1 := RR1 s; RR2 := RR2 s; probable_peaks := probable_peaks s;
     r_locs := r_locs s; peaks := peaks s; result := result s;
     SPKI := SPKI s; NPKI := NPKI s; Threshold_I1 := Threshold_I1 s;
     Threshold_I2 := Threshold_I2 s; SPKF := SPKF s; NPKF := NPKF s;
     Threshold_F1 := Threshold_F1 s; Threshold_F2 := v; T_wave := T_wave s;
     m_win := m_win s; b_pass := b_pass s; samp_freq := samp_freq s;
     signal := signal s; win_150ms := win_150ms s;
     RR_Low_Limit := RR_Low_Limit s; RR_High_Limit := RR_High_Limit s;
     RR_Missed_Limit := RR_Missed_Limit s; RR_Average1 := RR_Average1 s |}.

Definition set_T_wave (v : bool) (s : self) : self :=
  {| RR1 := RR1 s; RR2 := RR2 s; probable_peaks := probable_peaks s;
     r_locs := r_locs s; peaks := peaks s; result := result s;
     SPKI := SPKI s; NPKI := NPKI s; Threshold_I1 := Threshold_I1 s;
     Threshold_I2 := Threshold_I2 s; SPKF := SPKF s; NPKF := NPKF s;
     Threshold_F1 := Threshold_F1 s; Threshold_F2 := Threshold_F2 s;
     T_wave := v; m_win := m_win s; b_pass := b_pass s;
     samp_freq := samp_freq s; signal := signal s; win_150ms := win_150ms s;
     RR_Low_Limit := RR_Low_Limit s; RR_High_Limit := RR_High_Limit s;
     RR_Missed_Limit := RR_Missed_Limit s; RR_Average1 := RR_Average1 s |}.

Definition set_RR_Low_Limit (v : num) (s : self) : self :=
  {| RR1 := RR1 s; RR2 := RR2 s; probable_peaks := probable_peaks s;
     r_locs := r_locs s; peaks := peaks s; result := result s;
     SPKI := SPKI s; NPKI := NPKI s; Threshold_I1 := Threshold_I1 s;
     Threshold_I2 := Threshold_I2 s; SPKF := SPKF s; NPKF := NPKF s;
     Threshold_F1 := Threshold_F1 s; Threshold_F2 := Threshold_F2 s;
     T_wave := T_wave s; m_win := m_win s; b_pass := b_pass s;
     samp_freq := samp_freq s; signal := signal s; win_150ms := win_150ms s;
     RR_Low_Limit := v; RR_High_Limit := RR_High_Limit s;
     RR_Missed_Limit := RR_Missed_Limit s; RR_Average1 := RR_Average1 s |}.

Definition set_RR_High_Limit (v : num) (s : self) : self :=
  {| RR1 := RR1 s; RR2 := RR2 s; probable_peaks := probable_peaks s;
     r_locs := r_locs s; peaks := peaks s; result := result s;
     SPKI := SPKI s; NPKI := NPKI s; Threshold_I1 := Threshold_I1 s;
     Threshold_I2 := Threshold_I2 s; SPKF := SPKF s; NPKF := NPKF s;
     Threshold_F1 := Threshold_F1 s; Threshold_F2 := Threshold_F2 s;
     T_wave := T_wave s; m_win := m_win s; b_pass := b_pass s;
     samp_freq := samp_freq s; signal := signal s; win_150ms := win_150ms s;
     RR_Low_Limit := RR_Low_Limit s; RR_High_Limit := v;
     RR_Missed_Limit := RR_Missed_Limit s; RR_Average1 := RR_Average1 s |}.

Definition set_RR_Missed_Limit (v : num) (s : self) : self :=
  {| RR1 := RR1 s; RR2 := RR2 s; probable_peaks := probable_peaks s;
     r_locs := r_locs s; peaks := peaks s; result := result s;
     SPKI := SPKI s; NPKI := NPKI s; Threshold_I1 := Threshold_I1 s;
     Threshold_I2 := Threshold_I2 s; SPKF := SPKF s; NPKF := NPKF s;
     Threshold_F1 := Threshold_F1 s; Threshold_F2 := Threshold_F2 s;
     T_wave := T_wave s; m_win := m_win s; b_pass := b_pass s;
     samp_freq := samp_freq s; signal := signal s; win_150ms := win_150ms s;
     RR_Low_Limit := RR_Low_Limit s; RR_High_Limit := RR_High_Limit s;
     RR_Missed_Limit := v; RR_Average1 := RR_Average1 s |}.

Definition set_RR_Average1 (v : num) (s : self) : self :=
  {| RR1 := RR1 s; RR2 := RR2 s; probable_peaks := probable_peaks s;
     r_locs := r_locs s; peaks := peaks s; result := result s;
     SPKI := SPKI s; NPKI := NPKI s; Threshold_I1 := Threshold_I1 s;
     Threshold_I2 := Threshold_I2 s; SPKF := SPKF s; NPKF := NPKF s;
     Threshold_F1 := Threshold_F1 s; Threshold_F2 := Threshold_F2 s;
     T_wave := T_wave s; m_win := m_win s; b_pass := b_pass s;
     samp_freq := samp_freq s; signal := signal s; win_150ms := win_150ms s;
     RR_Low_Limit := RR_Low_Limit s; RR_High_Limit := RR_High_Limit s;
     RR_Missed_Limit := RR_Missed_Limit s; RR_Average1 := v |}.

(** [__init__] *)
Definition init (signal : list num) (samp_freq : Q)
    (qrs_dict : Pan_Tompkins_QRS.qrs_dict) : self :=
  {| RR1 := []; RR2 := []; probable_peaks := []; r_locs := []; peaks := [];
     result := [];
     SPKI := of_Z 0; NPKI := of_Z 0; Threshold_I1 := of_Z 0;
     Threshold_I2 := of_Z 0; SPKF := of_Z 0; NPKF := of_Z 0;
     Threshold_F1 := of_Z 0; Threshold_F2 := of_Z 0;
     T_wave := false;
     m_win := Pan_Tompkins_QRS.mwin qrs_dict;
     b_pass := Pan_Tompkins_QRS.bpass qrs_dict;
     samp_freq := samp_freq;
     signal := signal;
     win_150ms := py_round (0.15 * samp_freq)%Q;
     RR_Low_Limit := of_Z 0; RR_High_Limit := of_Z 0;
     RR_Missed_Limit := of_Z 0; RR_Average1 := of_Z 0 |}.

Section Detector.

(** [scipy.signal.fftconvolve(in1, in2, mode='same')], a library routine
    outside this program. *)
Variable fftconvolve_same : list num -> list num -> list num.

(** [np.full((25,), 1) / 25] *)
Definition kernel25 : list num := replicate 25 (fdiv (of_Z 1) (of_Z 25)).

Definition approx_peak_step (slopes : list num) (i : Z) (s : self)
  : res self :=
  a <- getitem slopes i ;;
  b <- getitem slopes (i - 1) ;;
  if fgtb a b then
    c <- getitem slopes (i + 1) ;;
    a' <- getitem slopes i ;;
    if fltb c a' then Ok (set_peaks (peaks s ++ [i]) s) else Ok s
  else Ok s.

Definition approx_peak (s : self) : res self :=
  let slopes := fftconvolve_same (m_win s) kernel25 in
  for_each (arange (py_round (0.5 * samp_freq s)%Q + 1) (len slopes - 1))
           (approx_peak_step slopes) s.

(** The loop of [adjust_rr_interval] carries [self] and the local
    [RR_Average2]. *)
Definition rr2_step (i : Z) (st : self * num) : res (self * num) :=
  let (s, RR_Average2) := st in
  x <- getitem (RR1 s) i ;;
  if fltb (RR_Low_Limit s) x && fltb x (RR_High_Limit s) then
    let s := set_RR2 (RR2 s ++ [x]) s in
    if 8 <? len (RR2 s) then
      x0 <- getitem (RR2 s) 0 ;;
      let s := set_RR2 (tail (RR2 s)) s in
      Ok (s, np_mean (RR2 s))
    else Ok (s, RR_Average2)
  else Ok (s, RR_Average2).

Definition adjust_rr_interval (ind : Z) (s : self) : res self :=
  let s := set_RR1
             (map (fun d => fdiv (of_Z d) (Fin (samp_freq s)))
                  (np_diffZ (slice (peaks s) (Z.max 0 (ind - 8)) (ind + 1))))
             s in
  let s := set_RR_Average1 (np_mean (RR1 s)) s in
  let RR_Average2 := RR_Average1 s in
  st <- when (8 <=? ind) (for_each (arange 0 8) rr2_step)
          (s, RR_Average2) ;;
  let (s, RR_Average2) := st in
  if (7 <? len (RR2 s)) || (ind <? 8) then
    let s := set_RR_Low_Limit (fmul (Fin 0.92) RR_Average2) s in
    let s := set_RR_High_Limit (fmul (Fin 1.16) RR_Average2) s in
    let s := set_RR_Missed_Limit (fmul (Fin 1.66) RR_Average2) s in
    Ok s
  else Ok s.

(** The position search of [searchback]: the first position of [coord]
    holding the largest value found at the positions of [coord]. *)
Definition first_max (win_rr : list num) (coord : list Z)
  : res (option Z) :=
  x <- (if 0 <? len coord then scan_first_max win_rr coord coord Unbound
        else Ok (Bound None)) ;;
  read x.

Definition searchback (peak_val : Z) (RRn : num) (sb_win : Z) (s : self)
  : res self :=
  if fgtb RRn (RR_Missed_Limit s) then
    let win_rr := slice (m_win s) (peak_val - sb_win + 1) (peak_val + 1) in
    let coord := positions_gt win_rr (Threshold_I1 s) in
    x_max <- first_max win_rr coord ;;
    match x_max with
    | Some x_max =>
        v <- getitem (m_win s) x_max ;;
        let s := set_SPKI (fadd (fmul (Fin 0.25) v)
                                (fmul (Fin 0.75) (SPKI s))) s in
        let s := set_Threshold_I1
                   (fadd (NPKI s)
                         (fmul (Fin 0.25) (fsub (SPKI s) (NPKI s)))) s in
        let s := set_Threshold_I2 (fmul (Fin 0.5) (Threshold_I1 s)) s in
        let win_rr := slice (b_pass s) (x_max - win_150ms s)
                            (Z.min (len (b_pass s) - 1) x_max) in
        let coord := positions_gt win_rr (Threshold_F1 s) in
        r_max <- first_max win_rr coord ;;
        match r_max with
        | Some r_max =>
            v <- getitem (b_pass s) r_max ;;
            if fgtb v (Threshold_F2 s) then
              let s := set_SPKF (fadd (fmul (Fin 0.25) v)
                                      (fmul (Fin 0.75) (SPKF s))) s in
              let s := set_Threshold_F1
                         (fadd (NPKF s)
                               (fmul (Fin 0.25) (fsub (SPKF s) (NPKF s))))
                         s in
              let s := set_Threshold_F2
                         (fmul (Fin 0.5) (Threshold_F1 s)) s in
              Ok (set_r_locs (r_locs s ++ [r_max]) s)
            else Ok s
        | None => Ok s
        end
    | None => Ok s
    end
  else Ok s.

(** [max(np.diff(self.m_win[p - round(self.win_150ms/2): p + 1]))] *)
Definition max_slope (p : Z) (s : self) : res num :=
  pymax (np_diff (slice (m_win s)
                        (p - py_round (inject_Z (win_150ms s) / 2)%Q)
                        (p + 1))).

Definition find_t_wave (peak_val : Z) (RRn : num) (ind prev_ind : Z)
    (s : self) : res self :=
  m <- getitem (m_win s) peak_val ;;
  if fgeb m (Threshold_I1 s) then
    s <- when ((0 <? ind) && fltb (Fin 0.20) RRn && fltb RRn (Fin 0.36))
           (fun s =>
             curr_slope <- max_slope peak_val s ;;
             prev_peak <- getitem (peaks s) prev_ind ;;
             last_slope <- max_slope prev_peak s ;;
             if fltb curr_slope (fmul (Fin 0.5) last_slope) then
               let s := set_T_wave true s in
               m <- getitem (m_win s) peak_val ;;
               Ok (set_NPKI (fadd (fmul (Fin 0.125) m)
                                  (fmul (Fin 0.875) (NPKI s))) s)
             else Ok s) s ;;
    if negb (T_wave s) then
      p <- getitem (probable_peaks s) ind ;;
      if fgtb (of_Z p) (Threshold_F1 s) then
        m <- getitem (m_win s) peak_val ;;
        let s := set_SPKI (fadd (fmul (Fin 0.125) m)
                                (fmul (Fin 0.875) (SPKI s))) s in
        b <- getitem (b_pass s) ind ;;
        let s := set_SPKF (fadd (fmul (Fin 0.125) b)
                                (fmul (Fin 0.875) (SPKF s))) s in
        p <- getitem (probable_peaks s) ind ;;
        Ok (set_r_locs (r_locs s ++ [p]) s)
      else
        m <- getitem (m_win s) peak_val ;;
        let s := set_SPKI (fadd (fmul (Fin 0.125) m)
                                (fmul (Fin 0.875) (SPKI s))) s in
        b <- getitem (b_pass s) ind ;;
        Ok (set_NPKF (fadd (fmul (Fin 0.125) b)
                           (fmul (Fin 0.875) (NPKF s))) s)
    else Ok s
  else
    if fltb m (Threshold_I1 s)
       || (fltb (Threshold_I1 s) m && fltb m (Threshold_I2 s)) then
      m <- getitem (m_win s) peak_val ;;
      let s := set_NPKI (fadd (fmul (Fin 0.125) m)
                              (fmul (Fin 0.875) (NPKI s))) s in
      b <- getitem (b_pass s) ind ;;
      Ok (set_NPKF (fadd (fmul (Fin 0.125) b)
                         (fmul (Fin 0.875) (NPKF s))) s)
    else Ok s.

Definition adjust_thresholds (peak_val ind : Z) (s : self) : res self :=
  m <- getitem (m_win s) peak_val ;;
  if fgeb m (Threshold_I1 s) then
    let s := set_SPKI (fadd (fmul (Fin 0.125) m)
                            (fmul (Fin 0.875) (SPKI s))) s in
    p <- getitem (probable_peaks s) ind ;;
    if fgtb (of_Z p) (Threshold_F1 s) then
      b <- getitem (b_pass s) ind ;;
      let s := set_SPKF (fadd (fmul (Fin 0.125) b)
                              (fmul (Fin 0.875) (SPKF s))) s in
      p <- getitem (probable_peaks s) ind ;;
      Ok (set_r_locs (r_locs s ++ [p]) s)
    else
      b <- getitem (b_pass s) ind ;;
      Ok (set_NPKF (fadd (fmul (Fin 0.125) b)
                         (fmul (Fin 0.875) (NPKF s))) s)
  else
    if fltb m (Threshold_I2 s)
       || (fltb (Threshold_I2 s) m && fltb m (Threshold_I1 s)) then
      let s := set_NPKI (fadd (fmul (Fin 0.125) m)
                              (fmul (Fin 0.875) (NPKI s))) s in
      b <- getitem (b_pass s) ind ;;
      Ok (set_NPKF (fadd (fmul (Fin 0.125) b)
                         (fmul (Fin 0.875) (NPKF s))) s)
    else Ok s.

Definition update_thresholds (s : self) : self :=
  let s := set_Threshold_I1
             (fadd (NPKI s) (fmul (Fin 0.25) (fsub (SPKI s) (NPKI s)))) s in
  let s := set_Threshold_F1
             (fadd (NPKF s) (fmul (Fin 0.25) (fsub (SPKF s) (NPKF s)))) s in
  let s := set_Threshold_I2 (fmul (Fin 0.5) (Threshold_I1 s)) s in
  let s := set_Threshold_F2 (fmul (Fin 0.5) (Threshold_F1 s)) s in
  set_T_wave false s.

(** [round(0.2 * self.samp_freq)] *)
Definition win_200ms (s : self) : Z := py_round (0.2 * samp_freq s)%Q.

(** The search window of [ecg_searchback] around [r_val]. *)
Definition ecg_coord (r_val : Z) (s : self) : list Z :=
  arange (r_val - win_200ms s)
         (Z.min (len (signal s)) (r_val + win_200ms s + 1)).

(** The loop of [ecg_searchback] carries the local [x_max] and
    [self.result]. *)
Definition ecg_searchback_step (s : self) (r_val : Z)
    (st : local (option Z) * list Z) : res (local (option Z) * list Z) :=
  let (x_max, result) := st in
  let coord := ecg_coord r_val s in
  x_max <- (if 0 <? len coord
            then scan_first_max (signal s) coord coord x_max
            else Ok (Bound None)) ;;
  x <- read x_max ;;
  match x with
  | Some pos => Ok (x_max, result ++ [pos])
  | None => Ok (x_max, result)
  end.

Definition ecg_searchback (s : self) : res self :=
  let s := set_r_locs (np_unique (r_locs s)) s in
  st <- for_each (r_locs s) (ecg_searchback_step s) (Unbound, result s) ;;
  Ok (set_result st.2 s).

(** The window [win_300ms] of [find_r_peaks] around [peak_val]. *)
Definition win_300ms (peak_val : Z) (s : self) : list Z :=
  arange (Z.max 0 (peak_val - win_150ms s))
         (Z.min (peak_val + win_150ms s) (len (b_pass s) - 1)).

(** The first statements of the loop body of [find_r_peaks]: the entry
    appended to [self.probable_peaks]. *)
Definition probable_peak_step (ind : Z) (s : self) : res self :=
  peak_val <- getitem (peaks s) ind ;;
  peak_val' <- getitem (peaks s) ind ;;
  vals <- map_res (getitem (b_pass s)) (win_300ms peak_val' s) ;;
  let max_val := pymax_default vals (of_Z 0) in
  if fneb max_val (of_Z 0) then
    match positions_eq (b_pass s) max_val with
    | x :: _ => Ok (set_probable_peaks (probable_peaks s ++ [x]) s)
    | [] => Err IndexError
    end
  else Ok s.

(** The loop body of [find_r_peaks]. *)
Definition find_r_peaks_step (ind : Z) (s : self) : res self :=
  peak_val <- getitem (peaks s) ind ;;
  s <- probable_peak_step ind s ;;
  s <- (if (ind <? len (probable_peaks s)) && negb (ind =? 0) then
          s <- adjust_rr_interval ind s ;;
          let s :=
            if fltb (RR_Average1 s) (RR_Low_Limit s)
               || fgtb (RR_Average1 s) (RR_Missed_Limit s)
            then
              let s := set_Threshold_I1
                         (fdiv (Threshold_I1 s) (of_Z 2)) s in
              set_Threshold_F1 (fdiv (Threshold_F1 s) (of_Z 2)) s
            else s in
          RRn <- getitem (RR1 s) (-1) ;;
          sb_win <- round_num (fmul RRn (Fin (samp_freq s))) ;;
          s <- searchback peak_val RRn sb_win s ;;
          find_t_wave peak_val RRn ind (ind - 1) s
        else adjust_thresholds peak_val ind s) ;;
  Ok (update_thresholds s).

(** The candidate loop of [find_r_peaks], after [approx_peak]. *)
Definition find_r_peaks_loop (s : self) : res self :=
  for_each (arange 0 (len (peaks s))) find_r_peaks_step s.

Definition find_r_peaks (s : self) : res (list Z) :=
  s <- approx_peak s ;;
  s <- find_r_peaks_loop s ;;
  s <- ecg_searchback s ;;
  Ok (result s).

End Detector.

End R_peak_extractor.

(** ** The beat windower: [extract_beats] *)

Section ExtractBeats.

Variable fftconvolve_same : list num -> list num -> list num.

(** [int(n_seconds4beat*freq*1/4)] and [int(n_seconds4beat*freq*3/4)] *)
Definition left_bound (freq n_seconds4beat : Q) : Z :=
  py_int (n_seconds4beat * freq * 1 / 4)%Q.

Definition right_bound (freq n_seconds4beat : Q) : Z :=
  py_int (n_seconds4beat * freq * 3 / 4)%Q.

(** [result = result[result > 0]; result = result[1:]] *)
Definition kept_peaks (result : list Z) : list Z :=
  let result := filter (fun r => 0 < r) result in
  slice_from result 1.

(** The body of [for r_peak in result]. *)
Definition beat_step (lead : list num) (left_bound right_bound : Z)
    (curr_beats : list (list num)) (r_peak : Z) : list (list num) :=
  if (len lead <=? r_peak + right_bound) || (r_peak - left_bound <? 0)
  then curr_beats
  else
    let beat := slice lead (r_peak - left_bound) (r_peak + right_bound) in
    curr_beats ++ [beat].

(** The beats cut from one lead, given the detector's output for it. *)
Definition lead_beats (lead : list num) (left_bound right_bound : Z)
    (result : list Z) : list (list num) :=
  foldl (beat_step lead left_bound right_bound) [] (kept_peaks result).

(** The body of [for i in range(12)] (with [test=False]); the statements
    after [results.append] only compute unused locals and cannot raise. *)
Definition extract_beats_step (denoised_record : list (list num))
    (freq n_seconds4beat : Q) (i : Z) (results : list (list (list num)))
  : res (list (list (list num))) :=
  lead <- getitem denoised_record i ;;
  qrs_dict <- Pan_Tompkins_QRS.solve freq lead ;;
  let beat_extractor := R_peak_extractor.init lead freq qrs_dict in
  result <- R_peak_extractor.find_r_peaks fftconvolve_same beat_extractor ;;
  Ok (results ++ [lead_beats lead (left_bound freq n_seconds4beat)
                             (right_bound freq n_seconds4beat) result]).

Definition extract_beats (denoised_record : list (list num))
    (freq n_seconds4beat : Q) : res (list (list (list num))) :=
  for_each (arange 0 12)
           (extract_beats_step denoised_record freq n_seconds4beat) [].

End ExtractBeats.

(** The sum that [fftconvolve(in1, in2, mode='same')] evaluates, written
    directly: entry [i] is the sum over [k] of [in1[i + (m-1)//2 - k] * in2[k]]
    with [m = len(in2)], absent terms omitted. *)
Definition convolve_same (in1 in2 : list num) : list num :=
  let m := length in2 in
  map (fun i : nat =>
         foldl fadd (of_Z 0)
               (omap (fun k : nat =>
                        if (k <=? i + (m - 1) / 2)%nat then
                          match in1 !! (i + (m - 1) / 2 - k)%nat, in2 !! k with
                          | Some x, Some y => Some (fmul x y)
                          | _, _ => None
                          end
                        else None)
                     (seq 0 m)))
      (seq 0 (length in1)).

(** ** Vocabulary of the statements *)

(** The sample a subscript denotes, NaN where the subscript is out of
    range. *)
Definition val (l : list num) (i : Z) : num :=
  match getitem l i with
  | Ok v => v
  | Err _ => NaN
  end.

(** [pos] is the first position of [a .. b-1] that holds the largest sample
    of that range. *)
Definition first_argmax (l : list num) (a b pos : Z) : Prop :=
  a <= pos < b /\
  (forall j, a <= j < b -> fltb (val l pos) (val l j) = false) /\
  (forall j, a <= j < pos -> fltb (val l j) (val l pos) = true).

(** A decision procedure for [first_argmax] on a concrete range. *)
Definition first_argmaxb (l : list num) (a b pos : Z) : bool :=
  (a <=? pos) && (pos <? b)
  && forallb (fun j => negb (fltb (val l pos) (val l j))) (arange a b)
  && forallb (fun j => fltb (val l j) (val l pos)) (arange a pos).

(** No sample is NaN. *)
Definition nan_free (l : list num) : Prop := Forall (fun v => v <> NaN) l.

(** [out] lists, for the centres [rs] in order, the first position of the
    largest sample of [l] in the window of half-width [w] around each
    centre whose window [r-w .. min(len l, r+w+1)-1] is not empty. *)
Inductive refined (l : list num) (w : Z) : list Z -> list Z -> Prop :=
| refined_nil : refined l w [] []
| refined_skip r rs out :
    Z.min (len l) (r + w + 1) <= r - w ->
    refined l w rs out ->
    refined l w (r :: rs) out
| refined_hit r rs pos out :
    first_argmax l (r - w) (Z.min (len l) (r + w + 1)) pos ->
    refined l w rs out ->
    refined l w (r :: rs) (pos :: out).

Import Pan_Tompkins_QRS.
Import R_peak_extractor.

(** ** Concrete detector inputs *)

(** A triangular integrated signal of [n] bumps, each 41 samples wide with
    its apex of height 20 in the middle. *)
Definition bump41 : list num :=
  map of_Z [ 0; 1; 2; 3; 4; 5; 6; 7; 8; 9; 10; 11; 12; 13; 14; 15; 16; 17; 18;
             19; 20; 19; 18; 17; 16; 15; 14; 13; 12; 11; 10; 9; 8; 7; 6; 5; 4;
             3; 2; 1; 0 ].

(** An extractor at 20 Hz whose band-pass signal takes its largest value 1
    at samples 0 and 18. *)
Definition c1_b_pass : list num :=
  [of_Z 1] ++ replicate 17 (of_Z 0) ++ [of_Z 1] ++ replicate 22 (of_Z 0).

Definition c1_extractor : self :=
  init (replicate 41 (of_Z 0)) 20
       {| bpass := c1_b_pass; der := replicate 41 (of_Z 0);
          sqr := replicate 41 (of_Z 0); mwin := bump41 |}.

(** An extractor at 20 Hz with two bumps in the integrated signal and a
    band-pass signal that is negative throughout: -1 at sample 0, -1/4 at
    sample 19, -1/8 at sample 59 and -1/2 elsewhere; the raw lead has its
    two pulses at samples 18 and 58. *)
Definition c3_m_win : list num := bump41 ++ tail bump41.

Definition c3_b_pass : list num :=
  [of_Z (-1)] ++ replicate 18 (Fin (-1 # 2)) ++ [Fin (-1 # 4)] ++
  replicate 39 (Fin (-1 # 2)) ++ [Fin (-1 # 8)] ++ replicate 21 (Fin (-1 # 2)).

Definition c3_signal : list num :=
  replicate 18 (of_Z 0) ++ [of_Z 1] ++ replicate 39 (of_Z 0) ++ [of_Z 1] ++
  replicate 22 (of_Z 0).

Definition c3_extractor : self :=
  init c3_signal 20
       {| bpass := c3_b_pass; der := replicate 81 (of_Z 0);
          sqr := replicate 81 (of_Z 0); mwin := c3_m_win |}.

(** An extractor at 20 Hz in mid-run, about to look back from the candidate
    at sample 40 over the 24 samples since the candidate at sample 16: the
    integrated signal has a missed beat of height 8 at sample 30 and the
    current one of height 4 at sample 40. *)
Definition c2_m_win : list num :=
  replicate 30 (of_Z 0) ++ [of_Z 8] ++ replicate 9 (of_Z 0) ++ [of_Z 4] ++
  replicate 9 (of_Z 0).

Definition c2_b_pass : list num :=
  [of_Z 0; Fin (3 # 10)] ++ replicate 9 (of_Z 0) ++ [Fin (1 # 2)] ++
  replicate 17 (of_Z 0) ++ [of_Z 1] ++ replicate 20 (of_Z 0).

Definition c2_extractor : self :=
  set_peaks [16; 40]
    (set_RR_Missed_Limit (of_Z 1)
       (set_Threshold_F2 (Fin (1 # 20))
          (set_Threshold_F1 (Fin (1 # 10))
             (set_SPKF (Fin (2 # 5))
                (set_Threshold_I2 (Fin (1 # 2))
                   (set_Threshold_I1 (of_Z 1)
                      (set_SPKI (of_Z 4)
                         (init (replicate 50 (of_Z 0)) 20
                               {| bpass := c2_b_pass;
                                  der := replicate 50 (of_Z 0);
                                  sqr := replicate 50 (of_Z 0);
                                  mwin := c2_m_win |})))))))).

(** A raw lead of 30 samples at 20 Hz with one pulse at sample 12, and an
    accepted set whose indices 10 and 14 (10 twice) both lie within 200 ms
    of it. *)
Definition c5_signal : list num :=
  replicate 12 (of_Z 0) ++ [of_Z 5] ++ replicate 17 (of_Z 0).

Definition c5_extractor : self :=
  set_r_locs [10; 14; 10]
    (init c5_signal 20
          {| bpass := replicate 30 (of_Z 0); der := replicate 30 (of_Z 0);
             sqr := replicate 30 (of_Z 0); mwin := replicate 30 (of_Z 0) |}).

(** A raw lead of 30 samples at 20 Hz with a pulse of height 3 at sample 2
    and a larger value 9 in its last sample, and the accepted index 2. *)
Definition c6_signal : list num :=
  [of_Z 0; of_Z 0; of_Z 3] ++ replicate 26 (of_Z 0) ++ [of_Z 9].

Definition c6_extractor : self :=
  set_r_locs [2]
    (init c6_signal 20
          {| bpass := replicate 30 (of_Z 0); der := replicate 30 (of_Z 0);
             sqr := replicate 30 (of_Z 0); mwin := replicate 30 (of_Z 0) |}).

(** A lead of 1000 samples and two detected peaks. *)
Definition c7_lead : list num := replicate 1000 (of_Z 0).
Definition c7_peaks : list Z := [100; 500].

(** Three samples at 250 Hz, and forty. *)
Definition short3 : list num := [of_Z 1; of_Z 2; of_Z 3].
Definition short40 : list num := replicate 40 (of_Z 1).

(** ** Vocabulary of the further statements *)

(** [s'] is [s] with only its RR attributes ([RR1], [RR2], [RR_Average1]
    and the three RR limits) possibly changed. *)
Definition rr_only (s s' : self) : Prop :=
  s' = set_RR_Missed_Limit (RR_Missed_Limit s')
         (set_RR_High_Limit (RR_High_Limit s')
            (set_RR_Low_Limit (RR_Low_Limit s')
               (set_RR_Average1 (RR_Average1 s')
                  (set_RR2 (RR2 s') (set_RR1 (RR1 s') s))))).

(** A sample that is a number: neither NaN nor an infinity. *)
Definition finite (x : num) : Prop := exists q, x = Fin q.

(** The value the derivative loop leaves in [result[index]], as a function
    of the input alone. *)
Definition derivative_at (freq : Q) (signal : list num) (index : Z) : num :=
  let v := of_Z 0 in
  let v := if 1 <=? index
           then fsub v (fmul (of_Z 2) (val signal (index - 1))) else v in
  let v := if 2 <=? index then fsub v (val signal (index - 2)) else v in
  let v := if (2 <=? index) && (index <=? len signal - 2)
           then fadd v (fmul (of_Z 2) (val signal (index + 1))) else v in
  let v := if (2 <=? index) && (index <=? len signal - 3)
           then fadd v (val signal (index + 2)) else v in
  fdiv (fmul v (Fin freq)) (of_Z 8).

(** Sample [i] of a signal given by its rational samples. *)
Definition sample (qs : list Q) (i : Z) : Q := nth (Z.to_nat i) qs 0%Q.





(** [s'] has the signals, the sampling data, the candidates and the
    reported peaks of [s]. *)
Definition same_inputs (s s' : self) : Prop :=
  peaks s' = peaks s /\ m_win s' = m_win s /\ b_pass s' = b_pass s /\
  signal s' = signal s /\ samp_freq s' = samp_freq s /\
  win_150ms s' = win_150ms s /\ result s' = result s.

(** Every probable peak and every accepted index of [s] is an index of
    the band-pass signal. *)
Definition valid_indices (s : self) : Prop :=
  Forall (fun r => 0 <= r < len (b_pass s)) (probable_peaks s) /\
  Forall (fun r => 0 <= r < len (b_pass s)) (r_locs s).

(** * Properties *)

(** ** Subscripts, ranges and loops *)

Lemma norm_index_in (n i : Z) : 0 <= i < n -> norm_index n i = Some (Z.to_nat i).
Proof.
  intros H. unfold norm_index.
  destruct (0 <=? i) eqn:E1; [|lia].
  destruct (i <? n) eqn:E2; [reflexivity|lia].
Qed.

Lemma getitem_in {A} (l : list A) (i : Z) :
  0 <= i < len l -> getitem l i = match l !! Z.to_nat i with Some x => Ok x | None => Err IndexError end.
Proof. intros H. unfold getitem. now rewrite norm_index_in. Qed.

Lemma getitem_ok {A} (l : list A) (i : Z) :
  0 <= i < len l -> exists x, getitem l i = Ok x /\ l !! Z.to_nat i = Some x.
Proof.
  intros H. rewrite getitem_in by done.
  destruct (lookup_lt_is_Some_2 l (Z.to_nat i)) as [x Hx].
  - unfold len in H. lia.
  - exists x. now rewrite Hx.
Qed.

Lemma getitem_out {A} (l : list A) (i : Z) : len l <= i -> getitem l i = Err IndexError.
Proof.
  intros H. unfold getitem, norm_index.
  destruct (Z.leb_spec 0 i); destruct (Z.ltb_spec i (len l)); simpl; try lia; try reflexivity.
  - destruct (Z.leb_spec (- len l) i); destruct (Z.ltb_spec i 0); simpl; try reflexivity; unfold len in *; lia.
  - destruct (Z.leb_spec (- len l) i); destruct (Z.ltb_spec i 0); simpl; try reflexivity; unfold len in *; lia.
Qed.

(** A subscript from [-len l] up to [len l - 1] denotes an item. *)
Lemma getitem_wrap_ok {A} (l : list A) (i : Z) :
  - len l <= i < len l -> exists x, getitem l i = Ok x /\ x ∈ l.
Proof.
  intros H. unfold getitem, norm_index.
  destruct (Z.leb_spec 0 i); destruct (Z.ltb_spec i (len l)); simpl; try lia.
  - destruct (lookup_lt_is_Some_2 l (Z.to_nat i)) as [x Hx];
      [unfold len in *; lia|].
    rewrite Hx. exists x. split; [reflexivity|]. eapply list_elem_of_lookup_2, Hx.
  - destruct (Z.leb_spec (- len l) i); destruct (Z.ltb_spec i 0); simpl; try lia.
    destruct (lookup_lt_is_Some_2 l (Z.to_nat (i + len l))) as [x Hx];
      [unfold len in *; lia|].
    rewrite Hx. exists x. split; [reflexivity|]. eapply list_elem_of_lookup_2, Hx.
Qed.

Lemma setitem_in {A} (l : list A) (i : Z) v :
  0 <= i < len l -> setitem l i v = Ok (<[Z.to_nat i := v]> l).
Proof. intros H. unfold setitem. now rewrite norm_index_in. Qed.

Lemma setitem_length {A} (l l' : list A) i v :
  setitem l i v = Ok l' -> length l' = length l.
Proof.
  unfold setitem. destruct (norm_index (len l) i); [|discriminate].
  intros [= <-]. apply length_insert.
Qed.

Lemma len_insert {A} (l : list A) k v : len (<[k := v]> l) = len l.
Proof. unfold len. now rewrite length_insert. Qed.

Lemma len_length {A B} (l : list A) (l' : list B) : len l = len l' <-> length l = length l'.
Proof. unfold len. lia. Qed.

Lemma len_replicate {A} n (x : A) : len (replicate n x) = Z.of_nat n.
Proof. unfold len. now rewrite length_replicate. Qed.

Lemma getitem_replicate {A} n (x : A) i :
  0 <= i < Z.of_nat n -> getitem (replicate n x) i = Ok x.
Proof.
  intros H. rewrite getitem_in by (unfold len; rewrite length_replicate; lia).
  rewrite lookup_replicate_2 by lia. reflexivity.
Qed.

Lemma setitem_replicate {A} n (x : A) i :
  0 <= i < Z.of_nat n -> setitem (replicate n x) i x = Ok (replicate n x).
Proof.
  intros H. rewrite setitem_in by (unfold len; rewrite length_replicate; lia).
  f_equal. apply list_insert_id, lookup_replicate_2. lia.
Qed.

Lemma iadd_length l i v l' : iadd l i v = Ok l' -> length l' = length l.
Proof.
  unfold iadd. destruct (getitem l i); simpl; [|discriminate].
  apply setitem_length.
Qed.

Lemma isub_length l i v l' : isub l i v = Ok l' -> length l' = length l.
Proof.
  unfold isub. destruct (getitem l i); simpl; [|discriminate].
  apply setitem_length.
Qed.

Lemma arange_bounds a b : Forall (fun i => a <= i < b) (arange a b).
Proof.
  unfold arange. apply Forall_forall. intros i Hi.
  apply list_elem_of_fmap in Hi as (k & -> & Hk).
  apply elem_of_seq in Hk. lia.
Qed.

Lemma elem_of_arange a b j : j ∈ arange a b <-> a <= j < b.
Proof.
  split.
  - intros H. pose proof (arange_bounds a b) as Hb. rewrite Forall_forall in Hb. now apply Hb.
  - intros H. unfold arange. apply list_elem_of_fmap. exists (Z.to_nat (j - a)).
    split; [lia|]. apply elem_of_seq. lia.
Qed.

Lemma arange_split a b c : a <= b <= c -> arange a c = arange a b ++ arange b c.
Proof.
  intros H. unfold arange.
  replace (Z.to_nat (c - a)) with (Z.to_nat (b - a) + Z.to_nat (c - b))%nat by lia.
  rewrite seq_app, map_app. f_equal. simpl.
  apply list_eq. intros i. rewrite !list_lookup_fmap.
  destruct (decide (i < Z.to_nat (c - b))%nat) as [Hi|Hi].
  - rewrite !lookup_seq_lt by lia. simpl. f_equal. lia.
  - rewrite !lookup_seq_ge by lia. reflexivity.
Qed.

Lemma arange_cons a b : a < b -> arange a b = a :: arange (a + 1) b.
Proof.
  intros H. unfold arange.
  replace (Z.to_nat (b - a)) with (S (Z.to_nat (b - (a + 1)))) by lia.
  simpl. f_equal; [lia|].
  apply list_eq. intros i. rewrite !list_lookup_fmap.
  destruct (decide (i < Z.to_nat (b - (a + 1)))%nat) as [Hi|Hi].
  - rewrite !lookup_seq_lt by lia. simpl. f_equal. lia.
  - rewrite !lookup_seq_ge by lia. reflexivity.
Qed.

Lemma arange_nil a b : b <= a -> arange a b = [].
Proof. intros H. unfold arange. now replace (Z.to_nat (b - a)) with 0%nat by lia. Qed.

(** A loop whose body returns and keeps [I] on every item returns and
    keeps [I]. *)
Lemma for_each_inv {X S} (I : S -> Prop) (P : X -> Prop) (body : X -> S -> res S) xs s :
  Forall P xs -> I s ->
  (forall x s, P x -> I s -> exists s', body x s = Ok s' /\ I s') ->
  exists s', for_each xs body s = Ok s' /\ I s'.
Proof.
  intros HP Hs Hstep. revert s Hs.
  induction HP as [|x xs Hx _ IH]; intros s Hs; simpl.
  - eauto.
  - destruct (Hstep x s Hx Hs) as (s1 & -> & H1). simpl. auto.
Qed.

(** Whatever a loop returns satisfies an invariant its body keeps. *)
Lemma for_each_preserves {X S} (I : S -> Prop) (body : X -> S -> res S) xs s s' :
  (forall x s s', body x s = Ok s' -> I s -> I s') ->
  for_each xs body s = Ok s' -> I s -> I s'.
Proof.
  intros Hstep. revert s. induction xs as [|x xs IH]; intros s; simpl.
  - now intros [= <-].
  - destruct (body x s) as [s1|e] eqn:E; simpl; [|discriminate].
    intros H Hs. apply (IH s1 H). eapply Hstep; eauto.
Qed.

Lemma for_each_app {X S} (xs ys : list X) (body : X -> S -> res S) s :
  for_each (xs ++ ys) body s = (s' <- for_each xs body s ;; for_each ys body s').
Proof.
  revert s. induction xs as [|x xs IH]; intros s; simpl; [reflexivity|].
  destruct (body x s); simpl; auto.
Qed.

Lemma for_each_fix {X S} (body : X -> S -> res S) (P : X -> Prop) xs s :
  Forall P xs -> (forall x, P x -> body x s = Ok s) -> for_each xs body s = Ok s.
Proof.
  intros HP Hb. induction HP as [|x xs Hx _ IH]; simpl; [reflexivity|].
  rewrite Hb by assumption. exact IH.
Qed.

Lemma slice_len {A} (l : list A) a b :
  0 <= a -> a <= b -> b <= len l -> len (slice l a b) = b - a.
Proof.
  intros Ha Hab Hb. unfold slice, clip_bound.
  destruct (Z.ltb_spec a 0); [lia|]. destruct (Z.ltb_spec b 0); [lia|].
  unfold len in *. rewrite length_take, length_drop. lia.
Qed.

Lemma slice_from_1 {A} (l : list A) : slice_from l 1 = drop 1 l.
Proof.
  unfold slice_from, clip_bound. simpl.
  destruct l as [|x l]; [reflexivity|].
  replace (Z.to_nat (Z.min 1 (len (x :: l)))) with 1%nat; [reflexivity|].
  unfold len. simpl. lia.
Qed.

(** ** The stages of the cascade return *)

Ltac idx := rewrite ?len_insert; unfold len in *; lia.

Ltac run_step :=
  repeat first
    [ progress cbn [bind when andb]
    | progress unfold iadd, isub
    | match goal with
      | |- context [Z.leb ?a ?b] => destruct (Z.leb_spec a b)
      | |- context [getitem ?l ?i] =>
          let x := fresh "x" in
          let E := fresh "E" in
          destruct (getitem_ok l i) as (x & E & _); [idx | rewrite E; clear E]
      | |- context [setitem ?l ?i ?v] => rewrite (setitem_in l i v) by idx
      end ].

Lemma low_pass_step_ok signal index sig :
  0 <= index < len signal -> len sig = len signal ->
  exists sig', low_pass_step signal index sig = Ok sig' /\ len sig' = len signal.
Proof.
  intros Hi Hl. unfold low_pass_step. run_step; eexists; split; try reflexivity; idx.
Qed.

Lemma high_pass_step_ok sig index result :
  0 <= index < len sig -> len result = len sig ->
  exists r', high_pass_step sig index result = Ok r' /\ len r' = len sig.
Proof.
  intros Hi Hl. unfold high_pass_step. run_step; eexists; split; try reflexivity; idx.
Qed.

Lemma derivative_step_ok freq signal index result :
  0 <= index < len signal -> len result = len signal ->
  exists r', derivative_step freq signal index result = Ok r' /\ len r' = len signal.
Proof.
  intros Hi Hl. unfold derivative_step. run_step; eexists; split; try reflexivity; idx.
Qed.

Lemma squaring_step_ok signal index result :
  0 <= index < len signal -> len result = len signal ->
  exists r', squaring_step signal index result = Ok r' /\ len r' = len signal.
Proof.
  intros Hi Hl. unfold squaring_step. run_step; eexists; split; try reflexivity; idx.
Qed.

Lemma mwi_head_step_ok freq signal j st :
  0 <= j < len signal -> len st.2 = len signal ->
  exists st', mwi_head_step freq signal j st = Ok st' /\ len st'.2 = len signal.
Proof.
  intros Hi Hl. unfold mwi_head_step. run_step; eexists; split; try reflexivity; simpl; idx.
Qed.

Lemma mwi_tail_step_ok freq signal index st :
  0 <= win_size freq ->
  win_size freq <= index < len signal -> len st.2 = len signal ->
  exists st', mwi_tail_step freq signal index st = Ok st' /\ len st'.2 = len signal.
Proof.
  intros Hw Hi Hl. unfold mwi_tail_step. run_step; eexists; split; try reflexivity; simpl; idx.
Qed.

Lemma pymax_ok xs : xs <> [] -> exists m, pymax xs = Ok m.
Proof. destruct xs; [done | simpl; eauto]. Qed.

Lemma pymin_ok xs : xs <> [] -> exists m, pymin xs = Ok m.
Proof. destruct xs; [done | simpl; eauto]. Qed.

Lemma derivative_ok freq signal :
  exists out, derivative freq signal = Ok out /\ length out = length signal.
Proof.
  unfold derivative.
  destruct (for_each_inv (fun r => len r = len signal) _ (derivative_step freq signal)
              _ signal (arange_bounds 0 (len signal)) eq_refl) as (out & E & H).
  - intros; now apply derivative_step_ok.
  - exists out. split; [exact E | now apply len_length].
Qed.

Lemma squaring_ok signal :
  exists out, squaring signal = Ok out /\ length out = length signal.
Proof.
  unfold squaring.
  destruct (for_each_inv (fun r => len r = len signal) _ (squaring_step signal)
              _ signal (arange_bounds 0 (len signal)) eq_refl) as (out & E & H).
  - intros; now apply squaring_step_ok.
  - exists out. split; [exact E | now apply len_length].
Qed.

Lemma band_pass_filter_ok signal :
  signal <> [] ->
  exists out, band_pass_filter signal = Ok out /\ length out = length signal.
Proof.
  intros Hne. unfold band_pass_filter.
  destruct (for_each_inv (fun r => len r = len signal) _ (low_pass_step signal)
              _ signal (arange_bounds 0 (len signal)) eq_refl) as (sig & -> & Hs).
  { intros; now apply low_pass_step_ok. }
  cbn [bind].
  destruct (for_each_inv (fun r => len r = len sig) _ (high_pass_step sig)
              _ sig (arange_bounds 0 (len signal)) eq_refl) as (r & -> & Hr).
  { intros; apply high_pass_step_ok; congruence. }
  cbn [bind].
  assert (r <> []) as Hrne.
  { intros ->. destruct signal; [done|]. unfold len in *. simpl in *. lia. }
  destruct (pymax_ok r Hrne) as (hi & ->). destruct (pymin_ok r Hrne) as (lo & ->).
  cbn [bind]. eexists. split; [reflexivity|].
  rewrite length_map. apply len_length. congruence.
Qed.

Lemma moving_window_integration_ok freq signal :
  0 <= win_size freq <= len signal ->
  exists out, moving_window_integration freq signal = Ok out /\ length out = length signal.
Proof.
  intros Hw. unfold moving_window_integration.
  destruct (for_each_inv (fun st : num * list num => len st.2 = len signal)
              (fun j => 0 <= j < len signal) (mwi_head_step freq signal)
              (arange 0 (win_size freq)) (of_Z 0, signal)) as (st & -> & Hs).
  { eapply Forall_impl; [apply arange_bounds|]. simpl. intros; lia. }
  { reflexivity. }
  { intros; now apply mwi_head_step_ok. }
  cbn [bind].
  destruct (for_each_inv (fun st : num * list num => len st.2 = len signal)
              _ (mwi_tail_step freq signal)
              _ st (arange_bounds (win_size freq) (len signal)) Hs) as (st' & -> & Hs').
  { intros; apply mwi_tail_step_ok; auto; lia. }
  cbn [bind]. eexists. split; [reflexivity|]. now apply len_length.
Qed.

(** [solve] returns on a non-empty signal at least as long as the
    integration window. *)
Lemma solve_ok freq signal :
  signal <> [] -> 0 <= win_size freq <= len signal ->
  exists d, solve freq signal = Ok d /\
    length (bpass d) = length signal /\ length (der d) = length signal /\
    length (sqr d) = length signal /\ length (mwin d) = length signal.
Proof.
  intros Hne Hw. unfold solve.
  destruct (band_pass_filter_ok signal Hne) as (b & -> & Hb). cbn [bind].
  destruct (derivative_ok freq b) as (d & -> & Hd). cbn [bind].
  destruct (squaring_ok d) as (q & -> & Hq). cbn [bind].
  destruct (moving_window_integration_ok freq q) as (m & -> & Hm).
  { unfold len in *. lia. }
  cbn [bind]. eexists. split; [reflexivity|]. simpl. repeat split; congruence.
Qed.

(** ** Inputs too short for the cascade *)

(** The first loop of the integrator reads [signal[len(signal)]] when the
    window is longer than the signal. *)
Lemma moving_window_integration_short freq signal :
  len signal < win_size freq ->
  moving_window_integration freq signal = Err IndexError.
Proof.
  intros Hw. unfold moving_window_integration.
  rewrite (arange_split 0 (len signal) (win_size freq)) by (unfold len in *; lia).
  rewrite for_each_app.
  destruct (for_each_inv (fun st : num * list num => len st.2 = len signal)
              _ (mwi_head_step freq signal)
              _ (of_Z 0, signal) (arange_bounds 0 (len signal)) eq_refl) as (st & -> & Hs).
  { intros; now apply mwi_head_step_ok. }
  cbn [bind]. rewrite arange_cons by lia. simpl.
  unfold mwi_head_step at 1. rewrite getitem_out by lia. reflexivity.
Qed.

Lemma solve_empty freq : solve freq [] = Err ValueError.
Proof. reflexivity. Qed.

Lemma solve_short freq signal :
  signal <> [] -> len signal < win_size freq ->
  solve freq signal = Err IndexError.
Proof.
  intros Hne Hw. unfold solve.
  destruct (band_pass_filter_ok signal Hne) as (b & -> & Hb). cbn [bind].
  destruct (derivative_ok freq b) as (d & -> & Hd). cbn [bind].
  destruct (squaring_ok d) as (q & -> & Hq). cbn [bind].
  rewrite moving_window_integration_short; [reflexivity|].
  unfold len in *. lia.
Qed.

(** ** Lengths of whatever the stages return *)

(** Takes the hypotheses [m = Ok r] apart along the binds of [m], down to
    the single assignments, and turns those into facts on lengths. *)
Ltac unbind :=
  repeat match goal with
         | H : bind ?m _ = Ok _ |- _ =>
             let E := fresh "E" in
             destruct m eqn:E; cbn [bind] in H; [|discriminate H]
         | H : when ?c _ _ = Ok _ |- _ =>
             destruct c; cbn [when] in H; cbn beta in H
         | H : Ok _ = Ok _ |- _ => injection H as H; subst
         | H : setitem _ _ _ = Ok _ |- _ => apply setitem_length in H
         | H : iadd _ _ _ = Ok _ |- _ => apply iadd_length in H
         | H : isub _ _ _ = Ok _ |- _ => apply isub_length in H
         end.

Lemma low_pass_step_length signal index sig sig' :
  low_pass_step signal index sig = Ok sig' -> length sig' = length sig.
Proof. unfold low_pass_step. intros H. unbind; congruence. Qed.

Lemma high_pass_step_length sig index result r' :
  high_pass_step sig index result = Ok r' -> length r' = length result.
Proof. unfold high_pass_step. intros H. unbind; congruence. Qed.

Lemma derivative_step_length freq signal index result r' :
  derivative_step freq signal index result = Ok r' ->
  length r' = length result.
Proof. unfold derivative_step. intros H. unbind; congruence. Qed.

Lemma squaring_step_length signal index result r' :
  squaring_step signal index result = Ok r' -> length r' = length result.
Proof. unfold squaring_step. intros H. unbind; congruence. Qed.

Lemma mwi_head_step_length freq signal j st st' :
  mwi_head_step freq signal j st = Ok st' -> length st'.2 = length st.2.
Proof. unfold mwi_head_step. intros H. unbind; simpl; congruence. Qed.

Lemma mwi_tail_step_length freq signal index st st' :
  mwi_tail_step freq signal index st = Ok st' -> length st'.2 = length st.2.
Proof. unfold mwi_tail_step. intros H. unbind; simpl; congruence. Qed.

Lemma band_pass_filter_length signal out :
  band_pass_filter signal = Ok out -> length out = length signal.
Proof.
  unfold band_pass_filter. intros H.
  destruct (for_each _ (low_pass_step signal) signal) as [sig|] eqn:E1;
    cbn [bind] in H; [|discriminate].
  destruct (for_each _ (high_pass_step sig) sig) as [r|] eqn:E2;
    cbn [bind] in H; [|discriminate].
  unbind. rewrite length_map.
  apply (for_each_preserves (fun l => length l = length signal)) in E1;
    [|intros x s s' Hs <-; now apply low_pass_step_length in Hs | reflexivity].
  apply (for_each_preserves (fun l => length l = length signal)) in E2;
    [assumption | intros x s s' Hs <-; now apply high_pass_step_length in Hs
    | assumption].
Qed.

Lemma derivative_length freq signal out :
  derivative freq signal = Ok out -> length out = length signal.
Proof.
  unfold derivative. intros H.
  apply (for_each_preserves (fun l => length l = length signal)) in H;
    [assumption | | reflexivity].
  intros x s s' Hs <-. now apply derivative_step_length in Hs.
Qed.

Lemma squaring_length signal out :
  squaring signal = Ok out -> length out = length signal.
Proof.
  unfold squaring. intros H.
  apply (for_each_preserves (fun l => length l = length signal)) in H;
    [assumption | | reflexivity].
  intros x s s' Hs <-. now apply squaring_step_length in Hs.
Qed.

Lemma moving_window_integration_length freq signal out :
  moving_window_integration freq signal = Ok out ->
  length out = length signal.
Proof.
  unfold moving_window_integration. intros H.
  destruct (for_each _ (mwi_head_step freq signal) _) as [st|] eqn:E1;
    cbn [bind] in H; [|discriminate].
  destruct (for_each _ (mwi_tail_step freq signal) st) as [st'|] eqn:E2;
    cbn [bind] in H; [|discriminate].
  injection H as <-.
  apply (for_each_preserves
           (fun st : num * list num => length st.2 = length signal)) in E1;
    [|intros x s s' Hs <-; now apply mwi_head_step_length in Hs | reflexivity].
  apply (for_each_preserves
           (fun st : num * list num => length st.2 = length signal)) in E2;
    [assumption | intros x s s' Hs <-; now apply mwi_tail_step_length in Hs
    | assumption].
Qed.

Lemma solve_length freq signal d :
  solve freq signal = Ok d ->
  length (bpass d) = length signal /\ length (der d) = length signal /\
  length (sqr d) = length signal /\ length (mwin d) = length signal.
Proof.
  unfold solve. intros H.
  destruct (band_pass_filter signal) as [b|] eqn:Eb; cbn [bind] in H;
    [|discriminate].
  destruct (derivative freq b) as [dv|] eqn:Ed; cbn [bind] in H;
    [|discriminate].
  destruct (squaring dv) as [q|] eqn:Eq; cbn [bind] in H; [|discriminate].
  destruct (moving_window_integration freq q) as [m|] eqn:Em;
    cbn [bind] in H; [|discriminate].
  injection H as <-. simpl.
  apply band_pass_filter_length in Eb. apply derivative_length in Ed.
  apply squaring_length in Eq. apply moving_window_integration_length in Em.
  repeat split; congruence.
Qed.

(** ** The band-pass stage on an all-zero signal *)

Lemma fadd_0_0 : fadd (of_Z 0) (of_Z 0) = of_Z 0. Proof. reflexivity. Qed.
Lemma fsub_0_0 : fsub (of_Z 0) (of_Z 0) = of_Z 0. Proof. reflexivity. Qed.
Lemma fmul_2_0 : fmul (of_Z 2) (of_Z 0) = of_Z 0. Proof. reflexivity. Qed.
Lemma fmul_32_0 : fmul (of_Z 32) (of_Z 0) = of_Z 0. Proof. reflexivity. Qed.
Lemma fmul_m1_0 : fmul (of_Z (-1)) (of_Z 0) = of_Z 0. Proof. reflexivity. Qed.

Ltac run_zero :=
  repeat first
    [ progress cbn [bind when]
    | progress unfold iadd, isub
    | rewrite getitem_replicate by lia
    | rewrite setitem_replicate by lia
    | progress rewrite ?fmul_2_0, ?fmul_32_0, ?fmul_m1_0, ?fadd_0_0, ?fsub_0_0
    | match goal with
      | |- context [Z.leb ?a ?b] => destruct (Z.leb_spec a b)
      end ].

Lemma low_pass_step_zero n index :
  0 <= index < Z.of_nat n ->
  low_pass_step (replicate n (of_Z 0)) index (replicate n (of_Z 0))
  = Ok (replicate n (of_Z 0)).
Proof. intros H. unfold low_pass_step. run_zero; reflexivity. Qed.

Lemma high_pass_step_zero n index :
  0 <= index < Z.of_nat n ->
  high_pass_step (replicate n (of_Z 0)) index (replicate n (of_Z 0))
  = Ok (replicate n (of_Z 0)).
Proof. intros H. unfold high_pass_step. run_zero; reflexivity. Qed.

Lemma foldl_max2_zero n : foldl max2 (of_Z 0) (replicate n (of_Z 0)) = of_Z 0.
Proof. induction n as [|n IH]; simpl; [reflexivity | exact IH]. Qed.

Lemma foldl_min2_zero n : foldl min2 (of_Z 0) (replicate n (of_Z 0)) = of_Z 0.
Proof. induction n as [|n IH]; simpl; [reflexivity | exact IH]. Qed.

(** Both passes leave an all-zero signal unchanged, so the divisor is 0
    and every quotient is 0/0. *)
Lemma band_pass_filter_zero n :
  band_pass_filter (replicate (S n) (of_Z 0)) = Ok (replicate (S n) NaN).
Proof.
  unfold band_pass_filter. rewrite len_replicate.
  rewrite (for_each_fix _ _ _ _ (arange_bounds 0 (Z.of_nat (S n))))
    by (intros; now apply low_pass_step_zero).
  cbn [bind].
  rewrite (for_each_fix _ _ _ _ (arange_bounds 0 (Z.of_nat (S n))))
    by (intros; now apply high_pass_step_zero).
  cbn [bind].
  replace (pymax (replicate (S n) (of_Z 0))) with (Ok (of_Z 0))
    by (simpl; now rewrite foldl_max2_zero).
  replace (pymin (replicate (S n) (of_Z 0))) with (Ok (of_Z 0))
    by (simpl; now rewrite foldl_min2_zero).
  cbn [bind]. f_equal.
  change (max2 (of_Z 0) (fneg (of_Z 0))) with (of_Z 0).
  generalize (S n). intros k. induction k as [|k IH]; simpl; [reflexivity|].
  now f_equal.
Qed.

(** ** The order of samples *)

Ltac num_cases :=
  repeat match goal with
         | a : num |- _ => destruct a
         end;
  simpl in *; try congruence; try discriminate.

Ltac q_props :=
  repeat match goal with
         | H : negb _ = true |- _ => apply negb_true_iff in H
         | H : negb _ = false |- _ => apply negb_false_iff in H
         | H : Qle_bool _ _ = true |- _ => apply Qle_bool_iff in H
         | H : Qle_bool ?x ?y = false |- _ =>
             assert (~ (x <= y)%Q) by (rewrite <- Qle_bool_iff; congruence); clear H
         | H : Qeq_bool _ _ = true |- _ => apply Qeq_bool_iff in H
         | H : Qeq_bool ?x ?y = false |- _ => apply Qeq_bool_neq in H
         | |- negb _ = true => apply negb_true_iff
         | |- negb _ = false => apply negb_false_iff
         | |- Qle_bool _ _ = true => apply Qle_bool_iff
         | |- Qle_bool _ _ = false => apply not_true_is_false; rewrite Qle_bool_iff
         | |- Qeq_bool _ _ = true => apply Qeq_bool_iff
         end.

Lemma feqb_refl a : a <> NaN -> feqb a a = true.
Proof. intros H. num_cases. apply Qeq_bool_refl. Qed.

Lemma feqb_sym a b : feqb a b = feqb b a.
Proof. num_cases. apply Qeq_bool_comm. Qed.

Lemma fltb_irrefl a : fltb a a = false.
Proof. num_cases. q_props. lra. Qed.

Lemma fltb_asym a b : fltb a b = true -> fltb b a = false.
Proof. intros H. num_cases; q_props; lra. Qed.

Lemma fltb_trichotomy a b :
  a <> NaN -> b <> NaN -> fltb a b = false -> feqb a b = false -> fltb b a = true.
Proof. intros Ha Hb H1 H2. num_cases. q_props. lra. Qed.

Lemma fltb_feqb_l a b c : feqb a b = true -> fltb a c = fltb b c.
Proof.
  intros H. num_cases. q_props. f_equal.
  destruct (Qle_bool q q1) eqn:E1, (Qle_bool q q0) eqn:E2; try reflexivity; q_props; lra.
Qed.

Lemma fltb_feqb_r a b c : feqb a b = true -> fltb c a = fltb c b.
Proof.
  intros H. num_cases. q_props. f_equal.
  destruct (Qle_bool q1 q) eqn:E1, (Qle_bool q0 q) eqn:E2; try reflexivity; q_props; lra.
Qed.

Lemma fle_trans a b c :
  b <> NaN -> fltb b a = false -> fltb c b = false -> fltb c a = false.
Proof.
  intros Hb H1 H2. destruct (fltb c a) eqn:E; [|reflexivity].
  num_cases; q_props; lra.
Qed.

(** ** Maxima and first positions *)

Lemma val_getitem l i : - len l <= i < len l -> getitem l i = Ok (val l i).
Proof.
  intros H. unfold val. destruct (getitem_wrap_ok l i H) as (x & -> & _).
  reflexivity.
Qed.

Lemma val_nan_free l i : nan_free l -> - len l <= i < len l -> val l i <> NaN.
Proof.
  intros Hl H. unfold val. destruct (getitem_wrap_ok l i H) as (x & -> & Hx).
  unfold nan_free in Hl. rewrite Forall_forall in Hl. now apply Hl.
Qed.

Lemma val_lookup l (i : nat) y : l !! i = Some y -> val l (Z.of_nat i) = y.
Proof.
  intros H. unfold val. rewrite getitem_in.
  - rewrite Nat2Z.id, H. reflexivity.
  - apply lookup_lt_Some in H. unfold len. lia.
Qed.

Lemma map_res_getitem l coord :
  Forall (fun i => - len l <= i < len l) coord ->
  map_res (getitem l) coord = Ok (map (val l) coord).
Proof.
  induction 1 as [|i coord Hi _ IH]; simpl; [reflexivity|].
  rewrite val_getitem by assumption. cbn [bind]. rewrite IH. reflexivity.
Qed.

Lemma max2_cases x z :
  x <> NaN -> z <> NaN ->
  (max2 x z = x \/ max2 x z = z) /\ max2 x z <> NaN /\
  fltb (max2 x z) x = false /\ fltb (max2 x z) z = false.
Proof.
  intros Hx Hz. unfold max2, fgtb. destruct (fltb x z) eqn:E.
  - repeat split; auto using fltb_asym, fltb_irrefl.
  - repeat split; auto using fltb_irrefl.
Qed.

(** On NaN-free items the running maximum is one of the items and no item
    exceeds it. *)
Lemma foldl_max2_spec xs x :
  x <> NaN -> Forall (fun v => v <> NaN) xs ->
  (foldl max2 x xs = x \/ foldl max2 x xs ∈ xs) /\
  foldl max2 x xs <> NaN /\
  fltb (foldl max2 x xs) x = false /\
  forall y, y ∈ xs -> fltb (foldl max2 x xs) y = false.
Proof.
  intros Hx Hxs. revert x Hx.
  induction Hxs as [|z xs Hz _ IH]; intros x Hx; simpl.
  - repeat split; auto using fltb_irrefl. intros y Hy. inversion Hy.
  - destruct (max2_cases x z Hx Hz) as (Hc & Hn & Hlx & Hlz).
    destruct (IH (max2 x z) Hn) as (Hin & Hm & Hle & Hmax).
    repeat split; auto.
    + destruct Hin as [->|Hin]; [|right; now right].
      destruct Hc as [->| ->]; [now left | right; left].
    + now apply (fle_trans _ (max2 x z)).
    + intros y Hy. apply elem_of_cons in Hy as [->|Hy]; [|now apply Hmax].
      now apply (fle_trans _ (max2 x z)).
Qed.

Lemma pymax_spec xs :
  xs <> [] -> Forall (fun v => v <> NaN) xs ->
  exists m, pymax xs = Ok m /\ m ∈ xs /\ m <> NaN /\
            forall y, y ∈ xs -> fltb m y = false.
Proof.
  intros Hne Hxs. destruct xs as [|x xs]; [done|].
  apply Forall_cons in Hxs as (Hx & Hxs).
  destruct (foldl_max2_spec xs x Hx Hxs) as (Hin & Hn & Hlx & Hmax).
  exists (foldl max2 x xs). split; [reflexivity|]. repeat split; auto.
  - destruct Hin as [->|Hin]; [left | now right].
  - intros y Hy. apply elem_of_cons in Hy as [->|Hy]; auto.
Qed.

Lemma scan_first_max_find arr coord m todo x :
  map_res (getitem arr) coord = Ok (map (val arr) coord) ->
  pymax (map (val arr) coord) = Ok m ->
  Forall (fun i => - len arr <= i < len arr) todo ->
  scan_first_max arr coord todo x =
  Ok (match List.find (fun pos => feqb (val arr pos) m) todo with
      | Some pos => Bound (Some pos)
      | None => x
      end).
Proof.
  intros Hmap Hmax Htodo. induction Htodo as [|pos todo Hpos _ IH]; simpl.
  - reflexivity.
  - rewrite val_getitem by assumption. cbn [bind]. rewrite Hmap. cbn [bind].
    rewrite Hmax. cbn [bind]. destruct (feqb (val arr pos) m); [reflexivity | exact IH].
Qed.

Lemma find_arange_first (f : Z -> bool) a b p :
  a <= p < b -> f p = true ->
  exists pos, List.find f (arange a b) = Some pos /\ a <= pos <= p /\
              f pos = true /\ forall j, a <= j < pos -> f j = false.
Proof.
  intros Hp Hf.
  remember (Z.to_nat (p - a)) as k eqn:Hk. revert a Hp Hk.
  induction k as [|k IH]; intros a Hp Hk.
  - assert (a = p) as -> by lia. rewrite arange_cons by lia. simpl. rewrite Hf.
    exists p. repeat split; auto; lia.
  - rewrite arange_cons by lia. simpl. destruct (f a) eqn:Ea.
    + exists a. repeat split; auto; lia.
    + destruct (IH (a + 1)) as (pos & E & Hpos & Hfp & Hfirst); [lia | lia |].
      exists pos. repeat split; auto; try lia.
      intros j Hj. destruct (decide (j = a)) as [->|Hne]; [exact Ea|].
      apply Hfirst. lia.
Qed.

(** Over a range of valid subscripts of a NaN-free array the scan stops
    at the first position holding the largest sample of the range. *)
Lemma scan_window arr a b x :
  nan_free arr -> - len arr <= a -> a < b -> b <= len arr ->
  exists pos, scan_first_max arr (arange a b) (arange a b) x = Ok (Bound (Some pos))
              /\ first_argmax arr a b pos.
Proof.
  intros Hnan Ha Hab Hb.
  assert (Forall (fun i => - len arr <= i < len arr) (arange a b)) as Hin.
  { eapply Forall_impl; [apply arange_bounds|]. simpl. intros; lia. }
  assert (forall j, a <= j < b -> val arr j ∈ map (val arr) (arange a b)) as Hmem.
  { intros j Hj. apply list_elem_of_fmap. exists j. split; [reflexivity|].
    unfold arange. apply list_elem_of_fmap. exists (Z.to_nat (j - a)).
    split; [lia|]. apply elem_of_seq. lia. }
  destruct (pymax_spec (map (val arr) (arange a b))) as (m & Em & Hm & Hmn & Hmax).
  { rewrite arange_cons by lia. discriminate. }
  { apply Forall_fmap. eapply Forall_impl; [exact Hin|]. simpl.
    intros i Hi. now apply val_nan_free. }
  rewrite (scan_first_max_find arr _ m) by auto using map_res_getitem.
  apply list_elem_of_fmap in Hm as (p & -> & Hp).
  assert (a <= p < b) as Hpr.
  { pose proof (arange_bounds a b) as Hbd. rewrite Forall_forall in Hbd. now apply Hbd. }
  destruct (find_arange_first (fun pos => feqb (val arr pos) (val arr p)) a b p Hpr)
    as (pos & -> & Hpos & Heq & Hfirst).
  { now apply feqb_refl. }
  exists pos. split; [reflexivity|]. split; [lia|]. split.
  - intros j Hj. rewrite (fltb_feqb_l _ _ _ Heq). apply Hmax. now apply Hmem.
  - intros j Hj. rewrite (fltb_feqb_r _ _ _ Heq).
    apply fltb_trichotomy; auto.
    + apply val_nan_free; auto. lia.
    + apply Hmax, Hmem. lia.
    + rewrite feqb_sym. apply Hfirst. lia.
Qed.

(** Moving both ends of a range to the right never moves its first
    maximum to the left. *)
Lemma first_argmax_mono l a1 b1 p1 a2 b2 p2 :
  first_argmax l a1 b1 p1 -> first_argmax l a2 b2 p2 ->
  a1 <= a2 -> b1 <= b2 -> p1 <= p2.
Proof.
  intros (H1 & _ & F1) (H2 & M2 & _) Ha Hb.
  destruct (Z_le_gt_dec p1 p2) as [|Hgt]; [assumption|].
  assert (fltb (val l p2) (val l p1) = true) as E1 by (apply F1; lia).
  assert (fltb (val l p2) (val l p1) = false) as E2 by (apply M2; lia).
  congruence.
Qed.

Lemma first_argmaxb_sound l a b pos :
  first_argmaxb l a b pos = true -> first_argmax l a b pos.
Proof.
  unfold first_argmaxb. rewrite !andb_true_iff, !forallb_forall.
  intros (((H1 & H2) & H3) & H4). split; [lia|]. split.
  - intros j Hj. apply negb_true_iff, H3, list_elem_of_In, elem_of_arange, Hj.
  - intros j Hj. apply H4, list_elem_of_In, elem_of_arange, Hj.
Qed.

(** ** [np.unique] *)

Lemma insert_unique_elem x y l : y ∈ insert_unique x l <-> y = x \/ y ∈ l.
Proof.
  induction l as [|z l IH]; simpl.
  - rewrite list_elem_of_singleton. split; [auto | intros [H|H]; [auto | inversion H]].
  - destruct (Z.ltb_spec x z).
    + rewrite elem_of_cons. tauto.
    + destruct (Z.eqb_spec x z) as [->|Hne].
      * rewrite elem_of_cons. tauto.
      * rewrite !elem_of_cons, IH. tauto.
Qed.

Lemma insert_unique_sorted x l :
  StronglySorted Z.lt l -> StronglySorted Z.lt (insert_unique x l).
Proof.
  induction 1 as [|z l Hs IH Hz]; simpl.
  - repeat constructor.
  - destruct (Z.ltb_spec x z).
    + constructor; [now constructor|]. constructor; [assumption|].
      eapply Forall_impl; [exact Hz|]. simpl. intros; lia.
    + destruct (Z.eqb_spec x z) as [->|Hne]; [now constructor|].
      constructor; [assumption|]. apply Forall_forall. intros y Hy.
      apply insert_unique_elem in Hy as [->|Hy]; [lia|].
      rewrite Forall_forall in Hz. now apply Hz.
Qed.

Lemma np_unique_sorted l : StronglySorted Z.lt (np_unique l).
Proof.
  unfold np_unique. induction l as [|x l IH]; simpl; [constructor|].
  now apply insert_unique_sorted.
Qed.

Lemma np_unique_elem l x : x ∈ np_unique l <-> x ∈ l.
Proof.
  unfold np_unique. induction l as [|y l IH]; simpl; [reflexivity|].
  rewrite insert_unique_elem, elem_of_cons, IH. reflexivity.
Qed.

(** ** The final refinement [ecg_searchback] *)

Lemma ecg_searchback_step_spec (s : self) r x res :
  nan_free (signal s) -> win_200ms s - len (signal s) <= r ->
  (Z.min (len (signal s)) (r + win_200ms s + 1) <= r - win_200ms s /\
   ecg_searchback_step s r (x, res) = Ok (Bound None, res)) \/
  (exists pos,
     first_argmax (signal s) (r - win_200ms s)
                  (Z.min (len (signal s)) (r + win_200ms s + 1)) pos /\
     ecg_searchback_step s r (x, res) = Ok (Bound (Some pos), res ++ [pos])).
Proof.
  intros Hnan Hr. unfold ecg_searchback_step, ecg_coord.
  set (a := r - win_200ms s). set (b := Z.min (len (signal s)) (r + win_200ms s + 1)).
  destruct (Z_le_gt_dec b a) as [Hle|Hgt].
  - left. split; [assumption|]. rewrite arange_nil by assumption. reflexivity.
  - right. destruct (scan_window (signal s) a b x Hnan) as (pos & E & Hpos); try lia.
    exists pos. split; [assumption|].
    replace (0 <? len (arange a b)) with true.
    + rewrite E. reflexivity.
    + symmetry. apply Z.ltb_lt. rewrite arange_cons by lia. unfold len. simpl. lia.
Qed.

Lemma ecg_loop_spec (s : self) rs x res :
  nan_free (signal s) ->
  Forall (fun r => win_200ms s - len (signal s) <= r) rs ->
  exists x' out,
    for_each rs (ecg_searchback_step s) (x, res) = Ok (x', res ++ out) /\
    refined (signal s) (win_200ms s) rs out.
Proof.
  intros Hnan Hrs. revert x res.
  induction Hrs as [|r rs Hr _ IH]; intros x res; cbn [for_each].
  - exists x, []. rewrite app_nil_r. split; [reflexivity | constructor].
  - destruct (ecg_searchback_step_spec s r x res Hnan Hr) as [(Hle & ->)|(pos & Hpos & ->)];
      cbn [bind].
    + destruct (IH (Bound None) res) as (x' & out & -> & Hout).
      exists x', out. split; [reflexivity | now constructor].
    + destruct (IH (Bound (Some pos)) (res ++ [pos])) as (x' & out & -> & Hout).
      exists x', (pos :: out). rewrite <- app_assoc. split; [reflexivity | now constructor].
Qed.

Lemma refined_elem l w rs out :
  refined l w rs out ->
  forall p, p ∈ out ->
  exists r, r ∈ rs /\ first_argmax l (r - w) (Z.min (len l) (r + w + 1)) p.
Proof.
  induction 1 as [|r rs out Hle _ IH|r rs pos out Hpos _ IH]; intros p Hp.
  - inversion Hp.
  - destruct (IH p Hp) as (r' & Hr' & Hf). exists r'. split; [now right | assumption].
  - apply elem_of_cons in Hp as [->|Hp].
    + exists r. split; [left | assumption].
    + destruct (IH p Hp) as (r' & Hr' & Hf). exists r'. split; [now right | assumption].
Qed.

Lemma refined_sorted l w rs out :
  StronglySorted Z.lt rs -> refined l w rs out -> StronglySorted Z.le out.
Proof.
  intros Hs Hr. induction Hr as [|r rs out Hle Hr IH|r rs pos out Hpos Hr IH].
  - constructor.
  - apply IH. now inversion Hs.
  - inversion Hs as [|? ? Hs' Hlt]; subst. constructor; [now apply IH|].
    apply Forall_forall. intros p Hp.
    destruct (refined_elem _ _ _ _ Hr p Hp) as (r' & Hr' & Hf).
    rewrite Forall_forall in Hlt. specialize (Hlt r' Hr').
    apply (first_argmax_mono l _ _ _ _ _ _ Hpos Hf); lia.
Qed.

Lemma refined_length l w rs out :
  refined l w rs out -> (length out <= length rs)%nat.
Proof. induction 1; simpl; lia. Qed.

(** [ecg_searchback] on a NaN-free raw signal whose windows all start at
    a valid subscript. *)
Lemma ecg_searchback_spec (s : self) :
  nan_free (signal s) ->
  Forall (fun r => win_200ms s - len (signal s) <= r) (r_locs s) ->
  exists s' out,
    ecg_searchback s = Ok s' /\
    r_locs s' = np_unique (r_locs s) /\
    result s' = result s ++ out /\
    refined (signal s) (win_200ms s) (np_unique (r_locs s)) out.
Proof.
  intros Hnan Hr. unfold ecg_searchback.
  set (s1 := set_r_locs (np_unique (r_locs s)) s).
  destruct (ecg_loop_spec s1 (r_locs s1) Unbound (result s1)) as (x' & out & -> & Hout).
  { exact Hnan. }
  { apply Forall_forall. intros r Hin. unfold s1 in Hin. simpl in Hin.
    rewrite np_unique_elem in Hin. rewrite Forall_forall in Hr.
    change (win_200ms s - len (signal s) <= r). now apply Hr. }
  cbn [bind]. eexists _, out. split; [reflexivity|].
  split; [reflexivity|]. split; [reflexivity | exact Hout].
Qed.

(** ** What [find_r_peaks] records as a probable peak *)

Lemma positions_eq_head_from (k : nat) xs v x rest :
  map (fun p : nat * num => Z.of_nat p.1)
      (filter (fun p : nat * num => feqb p.2 v = true)
              (imap (fun i y => ((k + i)%nat, y)) xs)) = x :: rest ->
  exists i y, x = Z.of_nat (k + i) /\ xs !! i = Some y /\ feqb y v = true /\
              forall j z, (j < i)%nat -> xs !! j = Some z -> feqb z v = false.
Proof.
  revert k. induction xs as [|y xs IH]; intros k; [discriminate|].
  rewrite imap_cons. cbn [filter]. rewrite filter_cons. cbn [snd].
  destruct (decide (feqb y v = true)) as [Hy|Hy].
  - intros [= <- _]. exists 0%nat, y. simpl.
    split; [reflexivity|]. split; [reflexivity|]. split; [assumption|].
    intros j z Hj. lia.
  - rewrite (imap_ext _ (fun i z => ((S k + i)%nat, z))) by (intros; simpl; f_equal; lia).
    intros H. destruct (IH (S k) H) as (i & z & -> & Hz & Hv & Hfirst).
    exists (S i), z.
    split; [f_equal; lia|]. split; [exact Hz|]. split; [exact Hv|].
    intros [|j] w Hj Hw; simpl in Hw.
    + injection Hw as <-. now apply not_true_is_false.
    + apply (Hfirst j); [lia | assumption].
Qed.

Lemma positions_eq_head xs v x rest :
  positions_eq xs v = x :: rest ->
  0 <= x < len xs /\ feqb (val xs x) v = true /\
  forall j, 0 <= j < x -> feqb (val xs j) v = false.
Proof.
  unfold positions_eq. intros H.
  destruct (positions_eq_head_from 0 xs v x rest H) as (i & y & -> & Hy & Hv & Hfirst).
  simpl. pose proof (lookup_lt_Some _ _ _ Hy) as Hi. split; [unfold len; lia|].
  split; [now rewrite (val_lookup _ _ _ Hy)|].
  intros j Hj.
  destruct (lookup_lt_is_Some_2 xs (Z.to_nat j)) as [z Hz]; [lia|].
  rewrite <- (Z2Nat.id j) by lia. rewrite (val_lookup _ _ _ Hz).
  apply (Hfirst (Z.to_nat j)); [lia | assumption].
Qed.

(** Whenever [probable_peak_step] appends an entry, the entry is the first
    index of the whole band-pass signal whose value equals the largest
    value [max_val] found in the window; nothing keeps it inside the
    window. *)
Lemma probable_peak_step_spec ind (s s' : self) :
  probable_peak_step ind s = Ok s' ->
  s' = s \/
  exists peak_val vals x,
    getitem (peaks s) ind = Ok peak_val /\
    map_res (getitem (b_pass s)) (win_300ms peak_val s) = Ok vals /\
    s' = set_probable_peaks (probable_peaks s ++ [x]) s /\
    0 <= x < len (b_pass s) /\
    feqb (val (b_pass s) x) (pymax_default vals (of_Z 0)) = true /\
    forall j, 0 <= j < x ->
              feqb (val (b_pass s) j) (pymax_default vals (of_Z 0)) = false.
Proof.
  unfold probable_peak_step. intros H.
  destruct (getitem (peaks s) ind) as [peak_val|] eqn:Ep; cbn [bind] in H;
    [|discriminate].
  destruct (map_res _ _) as [vals|] eqn:Ev; cbn [bind] in H; [|discriminate].
  destruct (fneb _ _); [|left; congruence].
  destruct (positions_eq _ _) as [|x rest] eqn:Ex; [discriminate|].
  injection H as <-. right. exists peak_val, vals, x.
  destruct (positions_eq_head _ _ _ _ Ex) as (H1 & H2 & H3).
  repeat split; auto; lia.
Qed.

(** ** The detector on a signal without candidates *)

Lemma convolve_same_length in1 in2 : length (convolve_same in1 in2) = length in1.
Proof. unfold convolve_same. now rewrite length_map, length_seq. Qed.

Lemma approx_peak_short fft (s : self) :
  length (fft (m_win s) kernel25) = length (m_win s) ->
  len (m_win s) <= py_round (0.5 * samp_freq s)%Q + 2 ->
  approx_peak fft s = Ok s.
Proof.
  intros Hlen Hs. unfold approx_peak.
  rewrite arange_nil; [reflexivity|]. unfold len in *. lia.
Qed.

Lemma find_r_peaks_loop_nil (s : self) :
  peaks s = [] -> find_r_peaks_loop s = Ok s.
Proof. intros H. unfold find_r_peaks_loop. now rewrite H. Qed.

Lemma find_r_peaks_short fft signal freq d :
  length (fft (mwin d) kernel25) = length (mwin d) ->
  len (mwin d) <= py_round (0.5 * freq)%Q + 2 ->
  approx_peak fft (init signal freq d) = Ok (init signal freq d) /\
  find_r_peaks fft (init signal freq d) = Ok [].
Proof.
  intros Hlen Hs.
  assert (approx_peak fft (init signal freq d) = Ok (init signal freq d)) as E
    by (now apply approx_peak_short).
  split; [exact E|].
  unfold find_r_peaks. rewrite E. cbn [bind].
  rewrite find_r_peaks_loop_nil by reflexivity. cbn [bind]. reflexivity.
Qed.

(** ** The beat windower *)

Lemma py_int_nonneg q : (0 <= q)%Q -> 0 <= py_int q.
Proof.
  intros H. unfold py_int.
  destruct (Qle_bool 0 q) eqn:E.
  - change 0 with (Qfloor 0). now apply Qfloor_resp_le.
  - apply Qle_bool_iff in H. congruence.
Qed.

Lemma left_bound_nonneg freq n : (0 <= n * freq)%Q -> 0 <= left_bound freq n.
Proof.
  intros H. apply py_int_nonneg.
  unfold Qdiv. rewrite Qmult_1_r. apply Qmult_le_0_compat; [assumption | discriminate].
Qed.

Lemma right_bound_nonneg freq n : (0 <= n * freq)%Q -> 0 <= right_bound freq n.
Proof.
  intros H. apply py_int_nonneg.
  unfold Qdiv. apply Qmult_le_0_compat; [|discriminate].
  apply Qmult_le_0_compat; [assumption | discriminate].
Qed.

Lemma foldl_beat_step_elem lead lb rb ps acc beat :
  beat ∈ foldl (beat_step lead lb rb) acc ps ->
  beat ∈ acc \/
  exists r, r ∈ ps /\ 0 <= r - lb /\ r + rb < len lead /\
            beat = slice lead (r - lb) (r + rb).
Proof.
  revert acc. induction ps as [|p ps IH]; intros acc; simpl.
  - auto.
  - intros H. apply IH in H as [H|(r & Hr & H)].
    + unfold beat_step in H.
      destruct (Z.leb_spec (len lead) (p + rb)); simpl in H; [now left|].
      destruct (Z.ltb_spec (p - lb) 0); simpl in H; [now left|].
      apply elem_of_app in H as [H|H]; [now left|].
      apply list_elem_of_singleton in H as ->.
      right. exists p. repeat split; [left | lia | lia].
    + right. exists r. split; [now right | assumption].
Qed.

Lemma lead_beats_elem lead lb rb result beat :
  beat ∈ lead_beats lead lb rb result ->
  exists r, r ∈ kept_peaks result /\ 0 <= r - lb /\ r + rb < len lead /\
            beat = slice lead (r - lb) (r + rb).
Proof.
  intros H. apply foldl_beat_step_elem in H as [H|H]; [inversion H | exact H].
Qed.

Lemma kept_peaks_eq result :
  kept_peaks result = drop 1 (filter (fun r => 0 < r) result).
Proof. unfold kept_peaks. apply slice_from_1. Qed.

Lemma kept_peaks_positive result : Forall (fun r => 0 < r) (kept_peaks result).
Proof.
  rewrite kept_peaks_eq. apply Forall_drop.
  apply Forall_forall. intros r Hr. now apply list_elem_of_filter in Hr as (H & _).
Qed.

Lemma kept_peaks_nonpositive pre x post :
  x <= 0 -> kept_peaks (pre ++ x :: post) = kept_peaks (pre ++ post).
Proof.
  intros Hx. rewrite !kept_peaks_eq, !filter_app, filter_cons_False by lia.
  reflexivity.
Qed.

(** * The claims *)

(** ** The filter cascade *)

(** C9, as stated, fails: at 250 Hz the moving-window integrator reads its
    first 38 samples unconditionally, so a 3-sample input raises
    [IndexError] and no output is returned. *)
Lemma cascade_length_counterexample :
  ~ exists out,
      moving_window_integration 250 short3 = Ok out /\
      length out = length short3.
Proof. intros (out & E & _). vm_compute in E. discriminate. Qed.

(** C9, amended: whatever a stage of the cascade returns has the length of
    its input, for every input signal and frequency, and so have the four
    signals of whatever [solve] returns.  The derivative and squaring stages
    return for every input; the band-pass stage returns for every non-empty
    input and the moving-window integrator for every input of at least
    [round(0.150*freq)] (>= 0) samples, so [solve] returns for every
    non-empty input of at least that many samples. *)
Theorem cascade_preserves_length (freq : Q) (signal : list num) :
  (forall out, band_pass_filter signal = Ok out ->
               length out = length signal) /\
  (forall out, derivative freq signal = Ok out ->
               length out = length signal) /\
  (forall out, squaring signal = Ok out -> length out = length signal) /\
  (forall out, moving_window_integration freq signal = Ok out ->
               length out = length signal) /\
  (forall d, solve freq signal = Ok d ->
             length (bpass d) = length signal /\
             length (der d) = length signal /\
             length (sqr d) = length signal /\
             length (mwin d) = length signal) /\
  is_ok (derivative freq signal) = true /\
  is_ok (squaring signal) = true /\
  (signal <> [] -> is_ok (band_pass_filter signal) = true) /\
  (0 <= win_size freq <= len signal ->
   is_ok (moving_window_integration freq signal) = true) /\
  (signal <> [] -> 0 <= win_size freq <= len signal ->
   is_ok (solve freq signal) = true).
Proof.
  split; [apply band_pass_filter_length|].
  split; [apply derivative_length|].
  split; [apply squaring_length|].
  split; [apply moving_window_integration_length|].
  split; [apply solve_length|].
  split; [now destruct (derivative_ok freq signal) as (out & -> & _)|].
  split; [now destruct (squaring_ok signal) as (out & -> & _)|].
  split.
  { intros Hne. now destruct (band_pass_filter_ok signal Hne) as (out & -> & _). }
  split.
  { intros Hw.
    now destruct (moving_window_integration_ok freq signal Hw) as (out & -> & _). }
  intros Hne Hw. now destruct (solve_ok freq signal Hne Hw) as (d & -> & _).
Qed.

Lemma cascade_preserves_length_witness :
  is_ok (solve 250 short40) = true /\
  forall d, solve 250 short40 = Ok d ->
            length (bpass d) = length short40 /\
            length (der d) = length short40 /\
            length (sqr d) = length short40 /\
            length (mwin d) = length short40.
Proof.
  destruct (cascade_preserves_length 250 short40)
    as (_ & _ & _ & _ & Hlen & _ & _ & _ & _ & Hok).
  split; [|exact Hlen].
  apply Hok; [discriminate | vm_compute; split; discriminate].
Defined.

(** C4, as stated, fails: on three zero samples the band-pass stage divides
    by the zero divisor and returns three NaN samples; nothing is raised. *)
Lemma all_zero_counterexample :
  band_pass_filter (replicate 3 (of_Z 0)) = Ok [NaN; NaN; NaN] /\
  band_pass_filter (replicate 3 (of_Z 0)) <> Err DegenerateSignal.
Proof. split; [vm_compute; reflexivity | vm_compute; discriminate]. Qed.

(** C4, amended: for an all-zero input of any positive length the
    band-pass stage performs the division by the zero divisor and returns a
    signal of the same length whose samples are all NaN; the stage raises
    [DegenerateSignal] on no input at all. *)
Theorem all_zero_band_pass_is_nan (n : nat) :
  band_pass_filter (replicate (S n) (of_Z 0)) = Ok (replicate (S n) NaN) /\
  forall signal, band_pass_filter signal <> Err DegenerateSignal.
Proof.
  split; [apply band_pass_filter_zero|].
  intros [|x signal].
  - vm_compute. discriminate.
  - destruct (band_pass_filter_ok (x :: signal)) as (out & -> & _); discriminate.
Qed.

(** C8, as stated, fails: three samples at 250 Hz are fewer than
    [round(0.5*250)+2 = 127], yet the pipeline raises [IndexError] in the
    moving-window integrator. *)
Lemma short_signal_counterexample :
  len short3 < py_round (0.5 * 250) + 2 /\
  solve 250 short3 = Err IndexError.
Proof. split; vm_compute; reflexivity. Qed.

(** C8, amended: for every non-empty input signal of at least
    [round(0.150*freq)] (>= 0) and fewer than [round(0.5*freq)+2] samples,
    the pipeline returns its four signals, [approx_peak] leaves the
    candidate list empty and [find_r_peaks] returns the empty list; the
    convolution routine is only assumed to return an output of the length
    of its first argument. *)
Theorem short_signal_no_peaks
    (fftconvolve_same : list num -> list num -> list num)
    (freq : Q) (signal : list num) :
  (forall in1 in2, length (fftconvolve_same in1 in2) = length in1) ->
  signal <> [] ->
  0 <= win_size freq <= len signal ->
  len signal < py_round (0.5 * freq) + 2 ->
  exists d,
    solve freq signal = Ok d /\
    (exists s, approx_peak fftconvolve_same (init signal freq d) = Ok s /\
               peaks s = []) /\
    find_r_peaks fftconvolve_same (init signal freq d) = Ok [].
Proof.
  intros Hfft Hne Hw Hshort.
  destruct (solve_ok freq signal Hne Hw) as (d & E & _ & _ & _ & Hm).
  exists d. split; [exact E|].
  destruct (find_r_peaks_short fftconvolve_same signal freq d) as (Ha & Hf).
  - apply Hfft.
  - unfold len in *. rewrite Hm. lia.
  - split; [|exact Hf]. eexists. split; [exact Ha | reflexivity].
Qed.

Lemma short_signal_no_peaks_witness :
  exists d,
    solve 250 short40 = Ok d /\
    (exists s, approx_peak convolve_same (init short40 250 d) = Ok s /\
               peaks s = []) /\
    find_r_peaks convolve_same (init short40 250 d) = Ok [].
Proof.
  apply (short_signal_no_peaks convolve_same 250 short40).
  - apply convolve_same_length.
  - discriminate.
  - vm_compute. split; discriminate.
  - vm_compute. reflexivity.
Defined.

(** ** The detector *)

(** C1: the code departs from the claim.  For [c1_extractor] the only
    candidate is sample 20 and its window is [17 .. 22]; the largest
    band-pass value of the window is at sample 18, but the entry appended to
    [probable_peaks] is 0, the first sample of the whole band-pass signal
    that holds the same value, which lies outside the window. *)
Theorem probable_peak_outside_window :
  exists s1 s2,
    approx_peak convolve_same c1_extractor = Ok s1 /\
    peaks s1 = [20] /\
    win_300ms 20 s1 = [17; 18; 19; 20; 21; 22] /\
    first_argmax (b_pass s1) 17 23 18 /\
    probable_peak_step 0 s1 = Ok s2 /\
    probable_peaks s2 = [0] /\
    0 ∉ win_300ms 20 s1.
Proof.
  eexists _, _.
  split; [vm_compute; reflexivity|].
  split; [reflexivity|].
  split; [vm_compute; reflexivity|].
  split; [apply first_argmaxb_sound; vm_compute; reflexivity|].
  split; [vm_compute; reflexivity|].
  split; [reflexivity|].
  intros H. apply elem_of_arange in H. vm_compute in H. destruct H as (H & _).
  now apply H.
Qed.

(** C2: the code departs from the claim.  For [c2_extractor], looking back
    from the candidate at sample 40 over [sb_win = round(1.2*20) = 24]
    samples, the first position of the integrated window [17 .. 40] that
    attains its maximum is sample 30, of value 8, above [Threshold_I1];
    [SPKI] becomes [0.25*m_win[13] + 0.75*4 = 3], read at the offset 13 of
    that position inside the window, not [0.25*8 + 0.75*4 = 5].  The
    band-pass search then runs over [b_pass[10:13]] (the 150 ms before
    sample 30 are [b_pass[27:30]], with their maximum at sample 29); the
    maximum of the slice searched is at sample 11 and exceeds both
    band-pass thresholds, and the index appended to [r_locs] is 1, its
    offset inside that slice, after [b_pass[1]] was the value compared
    with [Threshold_F2] and averaged into [SPKF]. *)
Theorem searchback_uses_window_offsets :
  round_num (fmul (Fin (6 # 5)) (Fin (samp_freq c2_extractor))) = Ok 24 /\
  fgtb (Fin (6 # 5)) (RR_Missed_Limit c2_extractor) = true /\
  first_argmax (m_win c2_extractor) (40 - 24 + 1) (40 + 1) 30 /\
  fgtb (val (m_win c2_extractor) 30) (Threshold_I1 c2_extractor) = true /\
  fadd (fmul (Fin 0.25) (val (m_win c2_extractor) 30))
       (fmul (Fin 0.75) (SPKI c2_extractor)) = of_Z 5 /\
  first_argmax (b_pass c2_extractor) (30 - win_150ms c2_extractor) 30 29 /\
  first_argmax (b_pass c2_extractor) (13 - win_150ms c2_extractor) 13 11 /\
  fgtb (val (b_pass c2_extractor) 11) (Threshold_F1 c2_extractor) = true /\
  fgtb (val (b_pass c2_extractor) 11) (Threshold_F2 c2_extractor) = true /\
  exists s',
    searchback 40 (Fin (6 # 5)) 24 c2_extractor = Ok s' /\
    SPKI s' = fadd (fmul (Fin 0.25) (val (m_win c2_extractor) 13))
                   (fmul (Fin 0.75) (SPKI c2_extractor)) /\
    SPKI s' = of_Z 3 /\
    SPKF s' = fadd (fmul (Fin 0.25) (val (b_pass c2_extractor) 1))
                   (fmul (Fin 0.75) (SPKF c2_extractor)) /\
    r_locs s' = [1].
Proof.
  split; [vm_compute; reflexivity|].
  split; [vm_compute; reflexivity|].
  split; [apply first_argmaxb_sound; vm_compute; reflexivity|].
  split; [vm_compute; reflexivity|].
  split; [vm_compute; reflexivity|].
  split; [apply first_argmaxb_sound; vm_compute; reflexivity|].
  split; [apply first_argmaxb_sound; vm_compute; reflexivity|].
  split; [vm_compute; reflexivity|].
  split; [vm_compute; reflexivity|].
  eexists. split; [vm_compute; reflexivity|].
  split; [vm_compute; reflexivity|].
  split; [reflexivity|].
  split; [vm_compute; reflexivity|].
  reflexivity.
Qed.

(** C3: the code departs from the claim.  For [c3_extractor] the candidates
    are samples 20 and 60 with probable peaks 19 and 59.  In the learning
    phase (candidate 0) and in T-wave discrimination (candidate 1) the
    integrated value reaches [Threshold_I1], no T wave is flagged, and the
    band-pass value at the probable peak does not exceed [Threshold_F1];
    yet both probable peaks are accepted, because the test compares the
    probable-peak index with the threshold, and [SPKF] is updated from
    [b_pass[ind]], the sample at the candidate's rank in the list.  The
    detector returns the two peaks. *)
Theorem acceptance_compares_index :
  exists s1 s2 s3 s4 s5,
    approx_peak convolve_same c3_extractor = Ok s1 /\
    peaks s1 = [20; 60] /\
    probable_peak_step 0 s1 = Ok s2 /\
    probable_peaks s2 = [19] /\
    fgeb (val (m_win s2) 20) (Threshold_I1 s2) = true /\
    fgtb (val (b_pass s2) 19) (Threshold_F1 s2) = false /\
    adjust_thresholds 20 0 s2 = Ok s3 /\
    r_locs s3 = [19] /\
    SPKF s3 = fadd (fmul (Fin 0.125) (val (b_pass s2) 0))
                   (fmul (Fin 0.875) (SPKF s2)) /\
    NPKF s3 = NPKF s2 /\
    (s <- probable_peak_step 1 (update_thresholds s3) ;;
     adjust_rr_interval 1 s) = Ok s4 /\
    probable_peaks s4 = [19; 59] /\
    RR1 s4 = [of_Z 2] /\
    fgeb (val (m_win s4) 60) (Threshold_I1 s4) = true /\
    fgtb (val (b_pass s4) 59) (Threshold_F1 s4) = false /\
    find_t_wave 60 (of_Z 2) 1 0 s4 = Ok s5 /\
    T_wave s5 = false /\
    r_locs s5 = [19; 59] /\
    SPKF s5 = fadd (fmul (Fin 0.125) (val (b_pass s4) 1))
                   (fmul (Fin 0.875) (SPKF s4)) /\
    NPKF s5 = NPKF s4 /\
    find_r_peaks convolve_same c3_extractor = Ok [18; 58].
Proof.
  eexists _, _, _, _, _.
  split; [vm_compute; reflexivity|].
  split; [reflexivity|].
  split; [vm_compute; reflexivity|].
  split; [reflexivity|].
  split; [vm_compute; reflexivity|].
  split; [vm_compute; reflexivity|].
  split; [vm_compute; reflexivity|].
  split; [reflexivity|].
  split; [vm_compute; reflexivity|].
  split; [reflexivity|].
  split; [vm_compute; reflexivity|].
  split; [reflexivity|].
  split; [reflexivity|].
  split; [vm_compute; reflexivity|].
  split; [vm_compute; reflexivity|].
  split; [vm_compute; reflexivity|].
  split; [reflexivity|].
  split; [reflexivity|].
  split; [vm_compute; reflexivity|].
  split; [reflexivity|].
  vm_compute; reflexivity.
Qed.

(** C5, as stated, fails: the accepted indices 10 and 14 of [c5_extractor]
    both refine to the raw maximum at sample 12, which is reported twice. *)
Lemma ecg_searchback_duplicates :
  exists s',
    ecg_searchback c5_extractor = Ok s' /\
    r_locs s' = [10; 14] /\
    result s' = [12; 12] /\
    ~ StronglySorted Z.lt (result s').
Proof.
  eexists. split; [vm_compute; reflexivity|].
  split; [reflexivity|]. split; [reflexivity|].
  intros H. inversion H as [|? ? _ Hlt]; subst.
  inversion Hlt as [|? ? Hbad _]; subst. lia.
Qed.

(** C5, amended: [ecg_searchback] sorts the accepted set and removes its
    duplicates before the search, for any accepted set; for a NaN-free raw
    signal whose search windows all start at a valid subscript
    ([r - win_200ms >= -len(signal)], which holds for every index [r >= 0]
    once the signal has [win_200ms] samples) the list it produces is
    ascending with possibly repeated entries, and never has more entries
    than there are distinct accepted indices. *)
Theorem ecg_searchback_ascending (s : self) :
  result s = [] ->
  nan_free (signal s) ->
  Forall (fun r => win_200ms s - len (signal s) <= r) (r_locs s) ->
  exists s',
    ecg_searchback s = Ok s' /\
    StronglySorted Z.lt (r_locs s') /\
    (forall r, r ∈ r_locs s' <-> r ∈ r_locs s) /\
    StronglySorted Z.le (result s') /\
    (length (result s') <= length (r_locs s'))%nat.
Proof.
  intros Hres Hnan Hr.
  destruct (ecg_searchback_spec s Hnan Hr) as (s' & out & E & Hl & Ho & Href).
  exists s'. split; [exact E|]. rewrite Hl, Ho, Hres. cbn [app].
  split; [apply np_unique_sorted|].
  split; [apply np_unique_elem|].
  split.
  - eapply refined_sorted; [apply np_unique_sorted | exact Href].
  - eapply refined_length. exact Href.
Qed.

Lemma ecg_searchback_ascending_witness :
  exists s',
    ecg_searchback c5_extractor = Ok s' /\
    StronglySorted Z.lt (r_locs s') /\
    (forall r, r ∈ r_locs s' <-> r ∈ r_locs c5_extractor) /\
    StronglySorted Z.le (result s') /\
    (length (result s') <= length (r_locs s'))%nat.
Proof.
  apply (ecg_searchback_ascending c5_extractor).
  - reflexivity.
  - unfold nan_free. simpl. repeat (constructor; [discriminate|]). constructor.
  - simpl. repeat (constructor; [vm_compute; discriminate|]). constructor.
Defined.

(** C6: the code departs from the claim.  For [c6_extractor] the accepted
    index 2 is closer than [win_200ms = 4] samples to the start of the raw
    signal; within the window clipped to the signal, [0 .. 6], the first
    largest sample is sample 2, but the search window starts at subscript
    -2, which denotes the end of the signal, and the reported peak is -1. *)
Theorem ecg_searchback_wraps_left :
  win_200ms c6_extractor = 4 /\
  first_argmax (signal c6_extractor) (Z.max 0 (2 - 4))
               (Z.min (len (signal c6_extractor)) (2 + 4 + 1)) 2 /\
  ecg_coord 2 c6_extractor = [-2; -1; 0; 1; 2; 3; 4; 5; 6] /\
  exists s',
    ecg_searchback c6_extractor = Ok s' /\
    r_locs s' = [2] /\
    result s' = [-1].
Proof.
  split; [vm_compute; reflexivity|].
  split; [apply first_argmaxb_sound; vm_compute; reflexivity|].
  split; [vm_compute; reflexivity|].
  eexists. split; [vm_compute; reflexivity|]. split; reflexivity.
Qed.

(** What [ecg_searchback] reports in general, for a NaN-free raw signal
    whose search windows all start at a valid subscript: for each distinct
    accepted index [r], in ascending order, the first position of the range
    [r - win_200ms .. min(len(signal), r + win_200ms + 1) - 1] holding the
    largest sample of that range, subscripts read as Python reads them.
    For [r >= win_200ms] the range lies inside the signal and this is the
    peak C6 describes; for smaller [r] its negative subscripts denote the
    end of the signal. *)
Lemma ecg_searchback_first_maximum (s : self) :
  result s = [] ->
  nan_free (signal s) ->
  Forall (fun r => win_200ms s - len (signal s) <= r) (r_locs s) ->
  exists s',
    ecg_searchback s = Ok s' /\
    refined (signal s) (win_200ms s) (np_unique (r_locs s)) (result s').
Proof.
  intros Hres Hnan Hr.
  destruct (ecg_searchback_spec s Hnan Hr) as (s' & out & E & Hl & Ho & Href).
  exists s'. split; [exact E|]. now rewrite Ho, Hres.
Qed.

(** ** The beats *)

(** C7, as stated, fails: at 250 Hz and one second per beat the right
    bound is [int(187.5) = 187], not [round(187.5) = 188], and the beat cut
    around the peak at sample 500 has 249 samples. *)
Lemma beat_length_counterexample :
  right_bound 250 1 <> py_round (3 * 1 * 250 / 4) /\
  map length (lead_beats c7_lead (left_bound 250 1) (right_bound 250 1)
                         c7_peaks) = [249%nat].
Proof. split; [vm_compute; discriminate | vm_compute; reflexivity]. Qed.

(** C7, amended: the window sizes are the truncations
    [left_bound = int(n_seconds4beat*freq/4)] and
    [right_bound = int(3*n_seconds4beat*freq/4)]; for a non-negative
    [n_seconds4beat*freq] every returned beat has exactly
    [left_bound + right_bound] samples, and at [freq = 250],
    [n_seconds4beat = 1] that is [62 + 187 = 249]. *)
Theorem beat_length (lead : list num) (freq n_seconds4beat : Q)
    (result : list Z) :
  (0 <= n_seconds4beat * freq)%Q ->
  left_bound freq n_seconds4beat = py_int (n_seconds4beat * freq * 1 / 4) /\
  right_bound freq n_seconds4beat = py_int (n_seconds4beat * freq * 3 / 4) /\
  Forall (fun beat =>
            len beat = left_bound freq n_seconds4beat
                       + right_bound freq n_seconds4beat)
         (lead_beats lead (left_bound freq n_seconds4beat)
                     (right_bound freq n_seconds4beat) result) /\
  left_bound 250 1 + right_bound 250 1 = 62 + 187.
Proof.
  intros Hpos. split; [reflexivity|]. split; [reflexivity|].
  split; [|vm_compute; reflexivity].
  pose proof (left_bound_nonneg freq n_seconds4beat Hpos) as Hl.
  pose proof (right_bound_nonneg freq n_seconds4beat Hpos) as Hr.
  apply Forall_forall. intros beat Hb.
  apply lead_beats_elem in Hb as (r & _ & H1 & H2 & ->).
  rewrite slice_len by lia. lia.
Qed.

Lemma beat_length_witness :
  Forall (fun beat => len beat = 249)
         (lead_beats c7_lead (left_bound 250 1) (right_bound 250 1) c7_peaks).
Proof.
  destruct (beat_length c7_lead 250 1 c7_peaks) as (_ & _ & H & _).
  - vm_compute. discriminate.
  - exact H.
Defined.

(** C10: [extract_beats] keeps the positive indices of the detector's
    output and only then drops the first of them; every beat is cut around
    a kept, hence positive, index, and an index that is zero or negative
    changes nothing: the beats are those obtained without it. *)
Theorem nonpositive_peaks_discarded (lead : list num)
    (lb rb : Z) :
  (forall result,
      kept_peaks result = drop 1 (filter (fun r => 0 < r) result)) /\
  (forall result beat,
      beat ∈ lead_beats lead lb rb result ->
      exists r, r ∈ kept_peaks result /\ 0 < r /\
                beat = slice lead (r - lb) (r + rb)) /\
  (forall pre x post,
      x <= 0 ->
      kept_peaks (pre ++ x :: post) = kept_peaks (pre ++ post) /\
      lead_beats lead lb rb (pre ++ x :: post) =
      lead_beats lead lb rb (pre ++ post)).
Proof.
  split; [apply kept_peaks_eq|]. split.
  - intros result beat Hb.
    apply lead_beats_elem in Hb as (r & Hr & _ & _ & ->).
    exists r. split; [exact Hr|]. split; [|reflexivity].
    pose proof (kept_peaks_positive result) as Hp.
    rewrite Forall_forall in Hp. now apply Hp.
  - intros pre x post Hx. split; [now apply kept_peaks_nonpositive|].
    unfold lead_beats. now rewrite kept_peaks_nonpositive.
Qed.

Lemma nonpositive_peaks_discarded_witness :
  kept_peaks ([100] ++ (-1) :: [500]) = kept_peaks ([100] ++ [500]) /\
  lead_beats c7_lead 62 187 ([100] ++ (-1) :: [500]) =
  lead_beats c7_lead 62 187 ([100] ++ [500]).
Proof.
  destruct (nonpositive_peaks_discarded c7_lead 62 187) as (_ & _ & H).
  apply H. lia.
Defined.

(** * Further properties of the program *)

(** ** [extract_beats] *)

Lemma foldl_beat_step_filter lead lb rb ps acc :
  foldl (beat_step lead lb rb) acc ps =
  acc ++ map (fun r => slice lead (r - lb) (r + rb))
             (filter (fun r => 0 <= r - lb /\ r + rb < len lead) ps).
Proof.
  revert acc. induction ps as [|p ps IH]; intros acc; simpl.
  - now rewrite app_nil_r.
  - rewrite IH. unfold beat_step. rewrite filter_cons.
    destruct (Z.leb_spec (len lead) (p + rb)); simpl.
    + rewrite decide_False by lia. reflexivity.
    + destruct (Z.ltb_spec (p - lb) 0).
      * rewrite decide_False by lia. reflexivity.
      * rewrite decide_True by lia. simpl. now rewrite <- app_assoc.
Qed.

(** The beats of one lead are the windows [r - left_bound .. r +
    right_bound - 1] of the positive detected peaks [r] after the first,
    in the order of the peaks, for exactly those [r] with
    [r - left_bound >= 0] and [r + right_bound < len(lead)]: a window that
    would end with the last sample of the lead is left out as well. *)
Theorem lead_beats_windows (lead : list num) (lb rb : Z) (result : list Z) :
  lead_beats lead lb rb result =
  map (fun r => slice lead (r - lb) (r + rb))
      (filter (fun r => 0 <= r - lb /\ r + rb < len lead)
              (drop 1 (filter (fun r => 0 < r) result))).
Proof.
  unfold lead_beats. rewrite foldl_beat_step_filter, kept_peaks_eq. reflexivity.
Qed.

Lemma for_each_ok_each {X S} (xs : list X) (body : X -> S -> res S) s s' :
  for_each xs body s = Ok s' ->
  forall x, x ∈ xs -> exists s1 s2, body x s1 = Ok s2.
Proof.
  revert s. induction xs as [|y xs IH]; intros s H x Hx; [inversion Hx|].
  simpl in H. destruct (body y s) as [s1|] eqn:E; cbn [bind] in H; [|discriminate].
  apply elem_of_cons in Hx as [->|Hx]; [eauto | eapply IH; eauto].
Qed.

Lemma for_each_ext {X S} (xs : list X) (f g : X -> S -> res S) s :
  (forall x s, x ∈ xs -> f x s = g x s) -> for_each xs f s = for_each xs g s.
Proof.
  revert s. induction xs as [|y xs IH]; intros s H; simpl; [reflexivity|].
  rewrite (H y s) by left. destruct (g y s); simpl; [|reflexivity].
  apply IH. intros x s' Hx. apply H. now right.
Qed.

Lemma extract_beats_step_length fft record freq n i results results' :
  extract_beats_step fft record freq n i results = Ok results' ->
  length results' = S (length results).
Proof.
  unfold extract_beats_step. intros H.
  destruct (getitem record i); cbn [bind] in H; [|discriminate].
  destruct (solve freq a); cbn [bind] in H; [|discriminate].
  destruct (find_r_peaks fft _); cbn [bind] in H; [|discriminate].
  injection H as <-. rewrite length_app. simpl. lia.
Qed.

Lemma for_each_grows {X A} (xs : list X) (body : X -> list A -> res (list A)) l l' :
  (forall x l l', body x l = Ok l' -> length l' = S (length l)) ->
  for_each xs body l = Ok l' -> length l' = (length l + length xs)%nat.
Proof.
  intros Hb. revert l. induction xs as [|x xs IH]; intros l; simpl.
  - intros [= <-]. lia.
  - destruct (body x l) as [l1|] eqn:E; cbn [bind]; [|discriminate].
    intros H. apply IH in H. apply Hb in E. lia.
Qed.

Lemma getitem_take {A} (l : list A) (k : nat) (i : Z) :
  0 <= i < Z.of_nat k -> getitem (take k l) i = getitem l i.
Proof.
  intros Hi. destruct (Z_lt_le_dec i (len l)) as [Hlt|Hge].
  - rewrite !getitem_in by (unfold len in *; rewrite ?length_take; lia).
    rewrite lookup_take_lt by lia. reflexivity.
  - rewrite !getitem_out; [reflexivity | assumption |].
    unfold len in *. rewrite length_take. lia.
Qed.

(** [extract_beats] reads the leads 0 to 11 and nothing else: whenever it
    returns, the record has at least 12 leads and the result has exactly
    12 entries; a record of fewer than 12 leads makes it raise; and the
    leads after the twelfth never change what it does. *)
Theorem extract_beats_twelve_leads
    (fftconvolve_same : list num -> list num -> list num)
    (denoised_record : list (list num)) (freq n_seconds4beat : Q) :
  (forall results,
      extract_beats fftconvolve_same denoised_record freq n_seconds4beat
      = Ok results ->
      length results = 12%nat /\ (12 <= length denoised_record)%nat) /\
  ((length denoised_record < 12)%nat ->
   is_ok (extract_beats fftconvolve_same denoised_record freq
                        n_seconds4beat) = false) /\
  extract_beats fftconvolve_same (take 12 denoised_record) freq
                n_seconds4beat
  = extract_beats fftconvolve_same denoised_record freq n_seconds4beat.
Proof.
  assert (forall results,
      extract_beats fftconvolve_same denoised_record freq n_seconds4beat
      = Ok results ->
      length results = 12%nat /\ (12 <= length denoised_record)%nat) as H1.
  { unfold extract_beats. intros results H. split.
    - apply for_each_grows in H; [exact H|].
      intros x l l'. apply extract_beats_step_length.
    - destruct (le_lt_dec 12 (length denoised_record)) as [|Hlt]; [assumption|].
      destruct (for_each_ok_each _ _ _ _ H (Z.of_nat (length denoised_record)))
        as (s1 & s2 & E).
      + apply elem_of_arange. lia.
      + unfold extract_beats_step in E. rewrite getitem_out in E by (unfold len; lia).
        discriminate. }
  split; [exact H1|]. split.
  - intros Hlt.
    destruct (extract_beats _ _ _ _) as [results|] eqn:E; [|reflexivity].
    destruct (H1 results eq_refl) as (_ & H). lia.
  - unfold extract_beats. apply for_each_ext. intros i results Hi.
    apply elem_of_arange in Hi. unfold extract_beats_step.
    rewrite getitem_take by lia. reflexivity.
Qed.

Lemma extract_beats_twelve_leads_witness :
  is_ok (extract_beats convolve_same (replicate 11 short40) 250 1) = false.
Proof.
  destruct (extract_beats_twelve_leads convolve_same (replicate 11 short40) 250 1)
    as (_ & H & _).
  apply H. simpl. lia.
Defined.

(** ** A candidate without a probable peak *)

(** When the largest band-pass value in a candidate's window is 0 (or the
    window is empty) nothing is appended to [probable_peaks]; if the list
    then has no entry of rank [ind] and the integrated value at the
    candidate reaches [Threshold_I1], the learning-phase rule subscripts
    the list all the same and [find_r_peaks] stops with [IndexError]. *)
Theorem zero_window_raises (ind : Z) (s : self) (peak_val : Z)
    (vals : list num) (m : num) :
  getitem (peaks s) ind = Ok peak_val ->
  map_res (getitem (b_pass s)) (win_300ms peak_val s) = Ok vals ->
  feqb (pymax_default vals (of_Z 0)) (of_Z 0) = true ->
  len (probable_peaks s) <= ind ->
  getitem (m_win s) peak_val = Ok m ->
  fgeb m (Threshold_I1 s) = true ->
  probable_peak_step ind s = Ok s /\
  find_r_peaks_step ind s = Err IndexError.
Proof.
  intros Hp Hv Hz Hl Hm Hge.
  assert (probable_peak_step ind s = Ok s) as E.
  { unfold probable_peak_step. rewrite Hp. cbn [bind]. rewrite Hv. cbn [bind].
    unfold fneb. now rewrite Hz. }
  split; [exact E|].
  unfold find_r_peaks_step. rewrite Hp. cbn [bind]. rewrite E. cbn [bind].
  replace (ind <? len (probable_peaks s)) with false
    by (symmetry; apply Z.ltb_ge; assumption).
  cbn [andb]. unfold adjust_thresholds. rewrite Hm. cbn [bind]. rewrite Hge.
  cbn [probable_peaks set_SPKI]. rewrite getitem_out by assumption. reflexivity.
Qed.

Lemma zero_window_raises_witness :
  find_r_peaks_step 0
    (set_peaks [20]
       (init (replicate 41 (of_Z 0)) 20
             {| bpass := replicate 41 (of_Z 0);
                der := replicate 41 (of_Z 0);
                sqr := replicate 41 (of_Z 0);
                mwin := bump41 |}))
  = Err IndexError.
Proof.
  eapply (zero_window_raises 0 _ 20 (replicate 6 (of_Z 0)) (of_Z 20)).
  - reflexivity.
  - vm_compute. reflexivity.
  - vm_compute. reflexivity.
  - vm_compute. discriminate.
  - vm_compute. reflexivity.
  - vm_compute. reflexivity.
Defined.

(** ** The candidates of [approx_peak] *)

Lemma approx_peak_step_eval slopes i (s : self) :
  1 <= i -> i < len slopes - 1 ->
  approx_peak_step slopes i s =
  Ok (if fltb (val slopes (i - 1)) (val slopes i)
         && fltb (val slopes (i + 1)) (val slopes i)
      then set_peaks (peaks s ++ [i]) s else s).
Proof.
  intros H1 H2. unfold approx_peak_step.
  rewrite !val_getitem by lia. cbn [bind]. unfold fgtb.
  destruct (fltb (val slopes (i - 1)) (val slopes i)); [|reflexivity].
  cbn [bind andb]. now destruct (fltb (val slopes (i + 1)) (val slopes i)).
Qed.

Lemma approx_peak_loop slopes b (k : nat) : forall a (s : self),
  1 <= a -> b <= len slopes - 1 -> k = Z.to_nat (b - a) ->
  exists new,
    for_each (arange a b) (approx_peak_step slopes) s
    = Ok (set_peaks (peaks s ++ new) s) /\
    StronglySorted Z.lt new /\
    forall i, i ∈ new <->
              a <= i < b /\
              fltb (val slopes (i - 1)) (val slopes i) = true /\
              fltb (val slopes (i + 1)) (val slopes i) = true.
Proof.
  induction k as [|k IH]; intros a s Ha Hb Hk.
  - exists []. rewrite arange_nil by lia. rewrite app_nil_r.
    split; [destruct s; reflexivity|]. split; [constructor|].
    intros i. split; [intros Hi; inversion Hi | lia].
  - rewrite arange_cons by lia. cbn [for_each].
    rewrite approx_peak_step_eval by lia. cbn [bind].
    destruct (fltb (val slopes (a - 1)) (val slopes a)
              && fltb (val slopes (a + 1)) (val slopes a)) eqn:E.
    + destruct (IH (a + 1) (set_peaks (peaks s ++ [a]) s)) as (new & -> & Hs & Hn);
        [lia | lia | lia |].
      exists (a :: new). cbn [peaks set_peaks]. rewrite <- app_assoc.
      split; [reflexivity|]. split.
      * constructor; [exact Hs|]. apply Forall_forall. intros i Hi.
        apply Hn in Hi. lia.
      * intros i. rewrite elem_of_cons, Hn. apply andb_true_iff in E as (E1 & E2).
        split.
        -- intros [->|(H1 & H2)]; [split; [lia | auto] | split; [lia | auto]].
        -- intros (H1 & H2). destruct (decide (i = a)); [now left | right].
           split; [lia | auto].
    + destruct (IH (a + 1) s) as (new & -> & Hs & Hn); [lia | lia | lia |].
      exists new. split; [reflexivity|]. split; [exact Hs|].
      intros i. rewrite Hn. split.
      * intros (H1 & H2). split; [lia | auto].
      * intros (H1 & H2 & H3). destruct (decide (i = a)) as [->|].
        -- rewrite H2, H3 in E. discriminate.
        -- split; [lia | auto].
Qed.

(** For a non-negative [round(0.5*samp_freq)], [approx_peak] never raises
    and changes nothing but [peaks]: it appends, in strictly ascending
    order, exactly the indices from [round(0.5*samp_freq)+1] to
    [len(slopes)-2] whose smoothed value is strictly above both of its
    neighbours; so no two candidates are adjacent samples. *)
Theorem approx_peak_candidates
    (fftconvolve_same : list num -> list num -> list num) (s : self) :
  0 <= py_round (0.5 * samp_freq s) ->
  exists new,
    approx_peak fftconvolve_same s = Ok (set_peaks (peaks s ++ new) s) /\
    StronglySorted Z.lt new /\
    (forall i,
        i ∈ new <->
        py_round (0.5 * samp_freq s) + 1 <= i
          < len (fftconvolve_same (m_win s) kernel25) - 1 /\
        fltb (val (fftconvolve_same (m_win s) kernel25) (i - 1))
             (val (fftconvolve_same (m_win s) kernel25) i) = true /\
        fltb (val (fftconvolve_same (m_win s) kernel25) (i + 1))
             (val (fftconvolve_same (m_win s) kernel25) i) = true) /\
    (forall i, i ∈ new -> i + 1 ∉ new).
Proof.
  intros Hf. unfold approx_peak.
  destruct (approx_peak_loop (fftconvolve_same (m_win s) kernel25)
              (len (fftconvolve_same (m_win s) kernel25) - 1)
              (Z.to_nat (len (fftconvolve_same (m_win s) kernel25) - 1
                         - (py_round (0.5 * samp_freq s) + 1)))
              (py_round (0.5 * samp_freq s) + 1) s) as (new & E & Hs & Hn);
    [lia | lia | reflexivity |].
  exists new. split; [exact E|]. split; [exact Hs|]. split; [exact Hn|].
  intros i Hi Hi'. apply Hn in Hi as (_ & _ & H1). apply Hn in Hi' as (_ & H2 & _).
  replace (i + 1 - 1) with i in H2 by lia.
  apply fltb_asym in H1. congruence.
Qed.

Lemma approx_peak_candidates_witness :
  exists new,
    approx_peak convolve_same c3_extractor
    = Ok (set_peaks (peaks c3_extractor ++ new) c3_extractor) /\
    StronglySorted Z.lt new /\
    (forall i, i ∈ new -> i + 1 ∉ new).
Proof.
  destruct (approx_peak_candidates convolve_same c3_extractor)
    as (new & E & Hs & _ & Hadj).
  - vm_compute. discriminate.
  - exists new. split; [exact E|]. split; [exact Hs | exact Hadj].
Defined.

(** ** The RR intervals of [adjust_rr_interval] *)

Lemma rr_only_refl s : rr_only s s.
Proof. unfold rr_only. destruct s; reflexivity. Qed.

Lemma rr_only_trans s1 s2 s3 : rr_only s1 s2 -> rr_only s2 s3 -> rr_only s1 s3.
Proof.
  unfold rr_only. intros H12 H23. rewrite H23 at 1. rewrite H12 at 1.
  destruct s1; reflexivity.
Qed.

Lemma np_diffZ_length l : length (np_diffZ l) = pred (length l).
Proof.
  induction l as [|x [|y l] IH]; try reflexivity.
  change (np_diffZ (x :: y :: l)) with ((y - x) :: np_diffZ (y :: l)).
  simpl in *. now rewrite IH.
Qed.

Lemma rr2_step_spec i (s : self) avg :
  0 <= i < len (RR1 s) -> len (RR2 s) <= 8 ->
  exists s' avg',
    rr2_step i (s, avg) = Ok (s', avg') /\
    rr_only s s' /\ RR1 s' = RR1 s /\ len (RR2 s') <= 8 /\
    RR_Average1 s' = RR_Average1 s /\
    RR_Low_Limit s' = RR_Low_Limit s /\ RR_High_Limit s' = RR_High_Limit s /\
    RR_Missed_Limit s' = RR_Missed_Limit s.
Proof.
  intros Hi Hl. unfold rr2_step.
  destruct (getitem_ok (RR1 s) i Hi) as (x & -> & _). cbn [bind].
  destruct (fltb (RR_Low_Limit s) x && fltb x (RR_High_Limit s)).
  - cbn [RR2 set_RR2].
    destruct (Z.ltb_spec 8 (len (RR2 s ++ [x]))) as [Hgt|Hle].
    + assert (len (RR2 s ++ [x]) <= 9) as H9
        by (unfold len in *; rewrite length_app; simpl; lia).
      destruct (RR2 s ++ [x]) as [|y l2] eqn:El;
        [unfold len in Hgt; simpl in Hgt; lia|].
      rewrite getitem_in by (unfold len; simpl; lia).
      cbn [Z.to_nat lookup list_lookup bind tail].
      eexists _, _. split; [reflexivity|].
      split; [unfold rr_only; destruct s; reflexivity|].
      split; [reflexivity|]. split; [|repeat split].
      cbn [RR2 set_RR2]. unfold len in *. simpl in H9. lia.
    + eexists _, _. split; [reflexivity|].
      split; [unfold rr_only; destruct s; reflexivity|].
      split; [reflexivity|]. split; [exact Hle | repeat split].
  - eexists _, _. split; [reflexivity|]. split; [apply rr_only_refl|].
    repeat split. exact Hl.
Qed.

Lemma rr2_loop_spec xs : forall (s : self) avg,
  Forall (fun i => 0 <= i < len (RR1 s)) xs -> len (RR2 s) <= 8 ->
  exists s' avg',
    for_each xs rr2_step (s, avg) = Ok (s', avg') /\
    rr_only s s' /\ RR1 s' = RR1 s /\ len (RR2 s') <= 8 /\
    RR_Average1 s' = RR_Average1 s /\
    RR_Low_Limit s' = RR_Low_Limit s /\ RR_High_Limit s' = RR_High_Limit s /\
    RR_Missed_Limit s' = RR_Missed_Limit s.
Proof.
  induction xs as [|i xs IH]; intros s avg Hxs Hl.
  - exists s, avg. split; [reflexivity|]. split; [apply rr_only_refl|].
    repeat split. exact Hl.
  - apply Forall_cons in Hxs as (Hi & Hxs). cbn [for_each].
    destruct (rr2_step_spec i s avg Hi Hl)
      as (s1 & a1 & -> & Hr1 & H1 & Hl1 & Ha1 & Hlo1 & Hhi1 & Hmi1).
    cbn [bind].
    destruct (IH s1 a1) as (s2 & a2 & -> & Hr2 & H2 & Hl2 & Ha2 & Hlo2 & Hhi2 & Hmi2).
    { now rewrite H1. }
    { exact Hl1. }
    exists s2, a2. split; [reflexivity|].
    split; [eapply rr_only_trans; eauto|]. repeat split; congruence.
Qed.

(** For a rank [ind] of the candidate list and an [RR2] of at most 8
    intervals, [adjust_rr_interval] never raises and changes only the RR
    attributes: [RR1] becomes the [min(ind, 8)] latest candidate spacings
    in seconds, [RR_Average1] their mean, [RR2] still has at most 8
    intervals, and before the ninth candidate ([ind < 8]) [RR2] is left
    alone and the three limits are 0.92, 1.16 and 1.66 times
    [RR_Average1]. *)
Theorem adjust_rr_interval_spec (ind : Z) (s : self) :
  0 <= ind < len (peaks s) ->
  len (RR2 s) <= 8 ->
  exists s',
    adjust_rr_interval ind s = Ok s' /\
    rr_only s s' /\
    RR1 s' = map (fun d => fdiv (of_Z d) (Fin (samp_freq s)))
                 (np_diffZ (slice (peaks s) (Z.max 0 (ind - 8)) (ind + 1))) /\
    len (RR1 s') = Z.min ind 8 /\
    RR_Average1 s' = np_mean (RR1 s') /\
    len (RR2 s') <= 8 /\
    (ind < 8 ->
     RR2 s' = RR2 s /\
     RR_Low_Limit s' = fmul (Fin 0.92) (RR_Average1 s') /\
     RR_High_Limit s' = fmul (Fin 1.16) (RR_Average1 s') /\
     RR_Missed_Limit s' = fmul (Fin 1.66) (RR_Average1 s')).
Proof.
  intros Hind Hl. unfold adjust_rr_interval.
  set (rr1 := map (fun d => fdiv (of_Z d) (Fin (samp_freq s)))
                  (np_diffZ (slice (peaks s) (Z.max 0 (ind - 8)) (ind + 1)))).
  assert (len rr1 = Z.min ind 8) as Hlen.
  { unfold rr1, len. rewrite length_map, np_diffZ_length.
    pose proof (slice_len (peaks s) (Z.max 0 (ind - 8)) (ind + 1)) as Hs.
    unfold len in *. lia. }
  set (s0 := set_RR_Average1 _ (set_RR1 rr1 s)).
  assert (rr_only s s0) as Hr0 by (unfold rr_only, s0; destruct s; reflexivity).
  destruct (Z.leb_spec 8 ind) as [Hge|Hlt]; cbn [when].
  - destruct (rr2_loop_spec (arange 0 8) s0 (RR_Average1 s0))
      as (s1 & a1 & -> & Hr1 & H1 & Hl1 & Ha1 & Hlo1 & Hhi1 & Hmi1).
    { eapply Forall_impl; [apply arange_bounds|]. simpl. intros i Hi.
      change (RR1 s0) with rr1. lia. }
    { exact Hl. }
    cbn [bind].
    assert (rr_only s s1) as Hr by (eapply rr_only_trans; eauto).
    destruct ((7 <? len (RR2 s1)) || (ind <? 8)).
    + eexists. split; [reflexivity|].
      split; [unfold rr_only in *; rewrite Hr at 1; destruct s; reflexivity|].
      cbn. split; [exact H1|]. split; [now rewrite H1|].
      split; [now rewrite Ha1, H1|]. split; [exact Hl1 | lia].
    + exists s1. split; [reflexivity|]. split; [exact Hr|].
      split; [exact H1|]. split; [now rewrite H1|].
      split; [now rewrite Ha1, H1|]. split; [exact Hl1 | lia].
  - cbn [bind]. replace (ind <? 8) with true by (symmetry; apply Z.ltb_lt; lia).
    rewrite orb_true_r. eexists. split; [reflexivity|].
    split; [unfold rr_only; destruct s; reflexivity|].
    cbn. split; [reflexivity|]. split; [exact Hlen|].
    split; [reflexivity|]. split; [exact Hl|]. intros _. repeat split.
Qed.

Lemma adjust_rr_interval_spec_witness :
  exists s',
    adjust_rr_interval 1 (set_peaks [20; 60] c3_extractor) = Ok s' /\
    len (RR1 s') = 1 /\
    RR_Low_Limit s' = fmul (Fin 0.92) (RR_Average1 s').
Proof.
  destruct (adjust_rr_interval_spec 1 (set_peaks [20; 60] c3_extractor))
    as (s' & E & _ & _ & H1 & _ & _ & H2).
  - vm_compute. split; [discriminate | reflexivity].
  - vm_compute. discriminate.
  - exists s'. split; [exact E|]. split; [exact H1|]. apply H2. lia.
Defined.

(** ** What [searchback] appends *)

Lemma scan_first_max_elem arr coord todo x0 p :
  scan_first_max arr coord todo x0 = Ok (Bound (Some p)) ->
  p ∈ todo \/ x0 = Bound (Some p).
Proof.
  induction todo as [|pos todo IH]; simpl.
  - intros [= ->]. now right.
  - destruct (getitem arr pos) as [v|]; cbn [bind]; [|discriminate].
    destruct (map_res (getitem arr) coord) as [sub|]; cbn [bind];
      [|discriminate].
    destruct (pymax sub) as [m|]; cbn [bind]; [|discriminate].
    destruct (feqb v m).
    + intros [= ->]. left. left.
    + intros H. apply IH in H as [H|H]; [left; now right | now right].
Qed.

Lemma first_max_elem win_rr coord p :
  first_max win_rr coord = Ok (Some p) -> p ∈ coord.
Proof.
  unfold first_max. destruct (0 <? len coord).
  - destruct (scan_first_max win_rr coord coord Unbound) as [x|] eqn:E;
      cbn [bind]; [|discriminate].
    destruct x as [|v]; simpl; [discriminate|]. intros [= ->].
    apply scan_first_max_elem in E as [E|E]; [exact E | discriminate].
  - cbn [bind read]. discriminate.
Qed.

Lemma positions_gt_elem xs t p :
  p ∈ positions_gt xs t -> 0 <= p < len xs /\ fgtb (val xs p) t = true.
Proof.
  unfold positions_gt. intros H.
  apply list_elem_of_fmap in H as ((i & x) & -> & H).
  apply list_elem_of_filter in H as (Hx & H).
  apply elem_of_lookup_imap in H as (j & y & [= -> ->] & Hj).
  simpl in *. pose proof (lookup_lt_Some _ _ _ Hj). split; [unfold len; lia|].
  now rewrite (val_lookup _ _ _ Hj).
Qed.

Lemma slice_length_le {A} (l : list A) a b :
  len (slice l a b) <= Z.max 0 (clip_bound (len l) b - clip_bound (len l) a).
Proof. unfold slice, len. rewrite length_take, length_drop. lia. Qed.

Lemma band_pass_slice_short {A} (l : list A) x w :
  0 <= x -> 0 <= w -> len (slice l (x - w) (Z.min (len l - 1) x)) <= w.
Proof.
  intros Hx Hw. pose proof (slice_length_le l (x - w) (Z.min (len l - 1) x)) as H.
  unfold clip_bound in H.
  destruct (Z.ltb_spec (x - w) 0); destruct (Z.ltb_spec (Z.min (len l - 1) x) 0);
    unfold len in *; lia.
Qed.

(** [searchback] leaves the extractor as it is unless [RRn] exceeds
    [RR_Missed_Limit]; it never changes the candidates, the probable peaks
    or the noise levels; and it appends at most one index to [r_locs],
    which is a position inside a band-pass slice of at most [win_150ms]
    samples: it is always below [win_150ms] (and below [len(b_pass)]),
    wherever in the signal the looked-back window lies. *)
Theorem searchback_appends_offset (peak_val : Z) (RRn : num) (sb_win : Z)
    (s s' : self) :
  searchback peak_val RRn sb_win s = Ok s' ->
  0 <= win_150ms s ->
  (fgtb RRn (RR_Missed_Limit s) = false -> s' = s) /\
  peaks s' = peaks s /\ probable_peaks s' = probable_peaks s /\
  NPKI s' = NPKI s /\ NPKF s' = NPKF s /\
  (r_locs s' = r_locs s \/
   exists r, r_locs s' = r_locs s ++ [r] /\
             0 <= r < win_150ms s /\ r < len (b_pass s)).
Proof.
  unfold searchback. intros H Hw.
  destruct (fgtb RRn (RR_Missed_Limit s)).
  2:{ injection H as <-. repeat split; auto. }
  split; [discriminate|].
  destruct (first_max _ _) as [[x_max|]|] eqn:Ex; cbn [bind] in H;
    [| injection H as <-; repeat split; auto | discriminate].
  destruct (getitem (m_win s) x_max) as [v|]; cbn [bind] in H; [|discriminate].
  cbn [b_pass win_150ms Threshold_F1 Threshold_F2 set_SPKI set_Threshold_I1
       set_Threshold_I2 NPKI SPKI Threshold_I1 SPKF NPKF r_locs] in H.
  destruct (first_max _ _) as [[r_max|]|] eqn:Er in H; cbn [bind] in H;
    [| injection H as <-; repeat split; auto | discriminate].
  destruct (getitem (b_pass s) r_max) as [b|] eqn:Eb; cbn [bind] in H;
    [|discriminate].
  destruct (fgtb b (Threshold_F2 s)).
  2:{ injection H as <-. repeat split; auto. }
  injection H as <-. cbn. repeat split; auto. right. exists r_max.
  split; [reflexivity|].
  apply first_max_elem, positions_gt_elem in Ex as ((Hx0 & _) & _).
  apply first_max_elem, positions_gt_elem in Er as ((Hr0 & Hr1) & _).
  pose proof (band_pass_slice_short (b_pass s) x_max (win_150ms s) Hx0 Hw) as Hs.
  pose proof (slice_length_le (b_pass s) (x_max - win_150ms s)
                (Z.min (len (b_pass s) - 1) x_max)) as Hs2.
  split; [lia|].
  unfold clip_bound in Hs2.
  destruct (Z.ltb_spec (x_max - win_150ms s) 0);
    destruct (Z.ltb_spec (Z.min (len (b_pass s) - 1) x_max) 0);
    unfold len in *; lia.
Qed.

Lemma searchback_appends_offset_witness :
  exists s',
    searchback 40 (Fin (6 # 5)) 24 c2_extractor = Ok s' /\
    (r_locs s' = r_locs c2_extractor \/
     exists r, r_locs s' = r_locs c2_extractor ++ [r] /\
               0 <= r < win_150ms c2_extractor /\
               r < len (b_pass c2_extractor)).
Proof.
  destruct (searchback 40 (Fin (6 # 5)) 24 c2_extractor) as [s'|] eqn:E.
  - exists s'. split; [reflexivity|].
    apply (searchback_appends_offset 40 (Fin (6 # 5)) 24 c2_extractor s' E).
    vm_compute. discriminate.
  - vm_compute in E. discriminate.
Defined.

(** ** The band-pass stage on finite samples *)

Create HintDb finite.

Lemma finite_of_Z z : finite (of_Z z).
Proof. now eexists. Qed.

Lemma finite_fadd a b : finite a -> finite b -> finite (fadd a b).
Proof. intros (x & ->) (y & ->). now eexists. Qed.

Lemma finite_fsub a b : finite a -> finite b -> finite (fsub a b).
Proof. intros (x & ->) (y & ->). now eexists. Qed.

Lemma finite_fmul a b : finite a -> finite b -> finite (fmul a b).
Proof. intros (x & ->) (y & ->). now eexists. Qed.

#[local] Hint Resolve finite_of_Z finite_fadd finite_fsub finite_fmul : finite.

Lemma getitem_elem {A} (l : list A) i x : getitem l i = Ok x -> x ∈ l.
Proof.
  unfold getitem. destruct (norm_index (len l) i) as [k|]; [|discriminate].
  destruct (l !! k) eqn:E; [|discriminate]. intros [= <-].
  eapply list_elem_of_lookup_2, E.
Qed.

















(** ** The pointwise stages: squaring and derivative *)

Lemma arange_snoc a b : a <= b -> arange a (b + 1) = arange a b ++ [b].
Proof.
  intros H. rewrite (arange_split a b (b + 1)) by lia. f_equal.
  rewrite arange_cons by lia. now rewrite arange_nil by lia.
Qed.

Lemma length_arange a b : length (arange a b) = Z.to_nat (b - a).
Proof. unfold arange. now rewrite length_map, length_seq. Qed.

(** A loop that assigns [g i] to item [i], for each [i] in turn, builds
    the list of the [g i]. *)
Lemma for_each_fill {A} (g : Z -> A) (body : Z -> list A -> res (list A))
    (l : list A) :
  (forall i l', 0 <= i < len l -> length l' = length l ->
                body i l' = Ok (<[Z.to_nat i := g i]> l')) ->
  for_each (arange 0 (len l)) body l = Ok (map g (arange 0 (len l))).
Proof.
  intros Hb.
  assert (forall k : nat, (k <= length l)%nat ->
            for_each (arange 0 (Z.of_nat k)) body l
            = Ok (map g (arange 0 (Z.of_nat k)) ++ drop k l)) as H.
  { induction k as [|k IH]; intros Hk.
    - reflexivity.
    - replace (Z.of_nat (S k)) with (Z.of_nat k + 1) by lia.
      rewrite arange_snoc by lia. rewrite for_each_app, IH by lia.
      cbn [bind for_each]. rewrite Hb.
      + cbn [bind]. f_equal. rewrite map_app. cbn [map].
        rewrite Nat2Z.id.
        rewrite insert_app_r_alt by (rewrite length_map, length_arange; lia).
        rewrite length_map, length_arange.
        replace (k - Z.to_nat (Z.of_nat k - 0))%nat with 0%nat by lia.
        destruct (lookup_lt_is_Some_2 l k) as [x Hx]; [lia|].
        rewrite (drop_S _ _ _ Hx). cbn. now rewrite <- app_assoc.
      + unfold len. lia.
      + rewrite length_app, length_map, length_arange, length_drop. lia. }
  unfold len. rewrite H by lia. rewrite drop_all. now rewrite app_nil_r.
Qed.

Lemma getitem_insert {A} (l : list A) i v :
  0 <= i < len l -> getitem (<[Z.to_nat i := v]> l) i = Ok v.
Proof.
  intros H. rewrite getitem_in by now rewrite len_insert.
  rewrite list_lookup_insert_eq by (unfold len in H; lia). reflexivity.
Qed.

Lemma setitem_insert {A} (l : list A) i v v' :
  0 <= i < len l ->
  setitem (<[Z.to_nat i := v]> l) i v' = Ok (<[Z.to_nat i := v']> l).
Proof.
  intros H. rewrite setitem_in by now rewrite len_insert.
  now rewrite list_insert_insert_eq.
Qed.

Lemma map_val_arange {A} (h : num -> A) (l : list num) :
  map (fun i => h (val l i)) (arange 0 (len l)) = map h l.
Proof.
  apply list_eq. intros i. rewrite !list_lookup_fmap.
  destruct (l !! i) as [x|] eqn:E.
  - pose proof (lookup_lt_Some _ _ _ E) as Hi.
    replace (arange 0 (len l) !! i) with (Some (Z.of_nat i)).
    + simpl. now rewrite (val_lookup _ _ _ E).
    + symmetry. unfold arange, len. rewrite list_lookup_fmap.
      rewrite lookup_seq_lt by lia. simpl. reflexivity.
  - apply lookup_ge_None in E.
    replace (arange 0 (len l) !! i) with (@None Z); [reflexivity|].
    symmetry. apply lookup_ge_None. rewrite length_arange. unfold len. lia.
Qed.

(** [squaring] never raises; its output is the input with every sample
    multiplied by itself, so no output sample is below zero. *)
Theorem squaring_pointwise (signal : list num) :
  squaring signal = Ok (map (fun x => fmul x x) signal) /\
  Forall (fun y => fltb y (of_Z 0) = false) (map (fun x => fmul x x) signal).
Proof.
  split.
  - unfold squaring.
    rewrite (for_each_fill (fun i => fmul (val signal i) (val signal i))).
    + f_equal. apply (map_val_arange (fun x => fmul x x)).
    + intros i l' Hi Hl. unfold squaring_step.
      rewrite val_getitem by lia. cbn [bind].
      apply setitem_in. unfold len in *. lia.
  - apply Forall_forall. intros y Hy.
    apply list_elem_of_fmap in Hy as (x & -> & _).
    destruct x as [q| | |]; try reflexivity.
    simpl. q_props. rewrite Qred_correct. change (inject_Z 0) with 0%Q. nra.
Qed.

(** [derivative] never raises, and each output sample is a function of
    the input alone: the loop reads the input, never its own output. *)
Lemma derivative_pointwise freq (signal : list num) :
  derivative freq signal
  = Ok (map (derivative_at freq signal) (arange 0 (len signal))).
Proof.
  unfold derivative. apply for_each_fill.
  intros i l' Hi Hl. unfold derivative_step, derivative_at, iadd, isub.
  assert (0 <= i < len l') as Hi' by (unfold len in *; lia).
  rewrite setitem_in by assumption. cbn [bind].
  repeat match goal with
         | |- context [Z.leb ?a ?b] => destruct (Z.leb_spec a b)
         end;
    cbn [when andb bind];
    repeat (rewrite ?val_getitem by lia;
            rewrite ?getitem_insert by assumption;
            rewrite ?setitem_insert by assumption;
            cbn [bind]);
    try reflexivity; lia.
Qed.

Lemma val_map_Fin (qs : list Q) i :
  0 <= i < len qs -> val (map Fin qs) i = Fin (sample qs i).
Proof.
  intros H. unfold val, sample.
  rewrite getitem_in by (unfold len in *; rewrite length_map; lia).
  rewrite list_lookup_fmap.
  destruct (lookup_lt_is_Some_2 qs (Z.to_nat i)) as [q Hq];
    [unfold len in H; lia|].
  rewrite Hq. simpl. f_equal. symmetry. now apply nth_lookup_Some.
Qed.

Lemma getitem_map_arange {A} (g : Z -> A) n i :
  0 <= i < n -> getitem (map g (arange 0 n)) i = Ok (g i).
Proof.
  intros H. rewrite getitem_in
    by (unfold len; rewrite length_map, length_arange; lia).
  rewrite list_lookup_fmap. unfold arange. rewrite list_lookup_fmap.
  rewrite lookup_seq_lt by lia. simpl. do 2 f_equal. lia.
Qed.

(** [derivative] on finite samples, in exact arithmetic: an interior
    output sample ([2 <= i <= len-3]) is
    [(freq/8)*(-x[i-2] - 2x[i-1] + 2x[i+1] + x[i+2])]; the first output
    sample is 0, and the last one is built from the two samples before it
    alone, [(freq/8)*(-x[len-3] - 2x[len-2])]. *)
Theorem derivative_five_point (freq : Q) (qs : list Q) :
  exists out,
    derivative freq (map Fin qs) = Ok out /\
    (forall i, 2 <= i <= len qs - 3 ->
       exists r, getitem out i = Ok (Fin r) /\
         (r == (freq / 8) * (- sample qs (i - 2) - 2 * sample qs (i - 1)
                             + 2 * sample qs (i + 1) + sample qs (i + 2)))%Q) /\
    (1 <= len qs -> exists r, getitem out 0 = Ok (Fin r) /\ (r == 0)%Q) /\
    (3 <= len qs ->
       exists r, getitem out (len qs - 1) = Ok (Fin r) /\
         (r == (freq / 8) * (- sample qs (len qs - 3)
                             - 2 * sample qs (len qs - 2)))%Q).
Proof.
  eexists. split; [apply derivative_pointwise|].
  assert (len (map Fin qs) = len qs) as Hl by (unfold len; now rewrite length_map).
  rewrite Hl. split; [|split].
  - intros i Hi. rewrite getitem_map_arange by lia. unfold derivative_at.
    rewrite Hl.
    destruct (Z.leb_spec 1 i); [|lia]. destruct (Z.leb_spec 2 i); [|lia].
    destruct (Z.leb_spec i (len qs - 2)); [|lia].
    destruct (Z.leb_spec i (len qs - 3)); [|lia].
    cbn [andb]. rewrite !val_map_Fin by lia.
    eexists. split; [reflexivity|].
    rewrite !Qred_correct.
    change (inject_Z 8) with 8%Q. change (inject_Z 2) with 2%Q.
    change (inject_Z 0) with 0%Q. field.
  - intros Hn. rewrite getitem_map_arange by lia. unfold derivative_at.
    cbn [Z.leb Z.compare andb]. eexists. split; [reflexivity|].
    rewrite !Qred_correct. change (inject_Z 8) with 8%Q.
    change (inject_Z 0) with 0%Q. field.
  - intros Hn. rewrite getitem_map_arange by lia. unfold derivative_at.
    rewrite Hl.
    destruct (Z.leb_spec 1 (len qs - 1)); [|lia].
    destruct (Z.leb_spec 2 (len qs - 1)); [|lia].
    destruct (Z.leb_spec (len qs - 1) (len qs - 2)); [lia|].
    destruct (Z.leb_spec (len qs - 1) (len qs - 3)); [lia|].
    cbn [andb]. rewrite !val_map_Fin by lia.
    replace (len qs - 1 - 1) with (len qs - 2) by lia.
    replace (len qs - 1 - 2) with (len qs - 3) by lia.
    eexists. split; [reflexivity|].
    rewrite !Qred_correct.
    change (inject_Z 8) with 8%Q. change (inject_Z 2) with 2%Q.
    change (inject_Z 0) with 0%Q. field.
Qed.

Lemma derivative_five_point_witness :
  exists out,
    derivative 8 (map Fin [1; 2; 3; 4; 5]%Q) = Ok out /\
    exists r, getitem out 2 = Ok (Fin r) /\
      (r == (8 / 8) * (- sample [1; 2; 3; 4; 5] (2 - 2)
                       - 2 * sample [1; 2; 3; 4; 5] (2 - 1)
                       + 2 * sample [1; 2; 3; 4; 5] (2 + 1)
                       + sample [1; 2; 3; 4; 5] (2 + 2)))%Q.
Proof.
  destruct (derivative_five_point 8 [1; 2; 3; 4; 5]%Q) as (out & E & H & _).
  exists out. split; [exact E|]. apply H. vm_compute. split; discriminate.
Defined.

(** ** The moving-window integrator as a window sum *)













(** ** Signals too short for the cascade *)

(** The integrator reads its first [round(0.150*freq)] samples without
    looking at the length: on every shorter signal it raises [IndexError],
    and so does [solve] when the signal is not empty; on the empty signal
    [solve] raises [ValueError], from [max] in the band-pass stage. *)
Theorem cascade_rejects_short (freq : Q) (signal : list num) :
  solve freq [] = Err ValueError /\
  (len signal < win_size freq ->
   moving_window_integration freq signal = Err IndexError /\
   (signal <> [] -> solve freq signal = Err IndexError)).
Proof.
  split; [reflexivity|]. intros Hw.
  split; [now apply moving_window_integration_short|].
  intros Hne. now apply solve_short.
Qed.

Lemma cascade_rejects_short_witness :
  moving_window_integration 250 short3 = Err IndexError /\
  (short3 <> [] -> solve 250 short3 = Err IndexError).
Proof.
  destruct (cascade_rejects_short 250 short3) as (_ & H).
  apply H. vm_compute. reflexivity.
Defined.

(** ** The recorded probable peak and the window *)

Lemma foldl_max2_elem xs x : foldl max2 x xs = x \/ foldl max2 x xs ∈ xs.
Proof.
  revert x. induction xs as [|z xs IH]; intros x; simpl; [now left|].
  destruct (IH (max2 x z)) as [H|H]; [|right; now right].
  rewrite H. unfold max2. destruct (fgtb z x); [right; left | now left].
Qed.

Lemma feqb_self_of_eq a b : feqb a b = true -> feqb b b = true.
Proof. num_cases. intros _. apply Qeq_bool_refl. Qed.

Lemma map_res_getitem_val l coord vals :
  map_res (getitem l) coord = Ok vals -> vals = map (val l) coord.
Proof.
  revert vals. induction coord as [|i coord IH]; intros vals; simpl.
  - now intros [= <-].
  - unfold val at 1. destruct (getitem l i) as [x|]; cbn [bind]; [|discriminate].
    destruct (map_res (getitem l) coord) as [ys|]; cbn [bind]; [|discriminate].
    intros [= <-]. f_equal. now apply IH.
Qed.

(** [probable_peak_step] changes nothing but [probable_peaks], to which it
    appends at most one entry.  The entry is a valid index of the
    band-pass signal whose value equals that of some sample of the window,
    and it is the first such index of the whole signal: it is never to
    the right of the window ([x < peak_val + win_150ms] and
    [x < len(b_pass) - 1]), while nothing bounds it on the left.  On a
    NaN-free band-pass signal no sample of the window exceeds the value at
    the entry. *)
Theorem probable_peak_not_right_of_window (ind : Z) (s s' : self)
    (peak_val : Z) :
  getitem (peaks s) ind = Ok peak_val ->
  probable_peak_step ind s = Ok s' ->
  s' = s \/
  exists x,
    s' = set_probable_peaks (probable_peaks s ++ [x]) s /\
    0 <= x /\ x < peak_val + win_150ms s /\ x < len (b_pass s) - 1 /\
    (exists j, j ∈ win_300ms peak_val s /\ x <= j /\
               feqb (val (b_pass s) x) (val (b_pass s) j) = true) /\
    (forall k, 0 <= k < x ->
               feqb (val (b_pass s) k) (val (b_pass s) x) = false) /\
    (nan_free (b_pass s) ->
     forall k, k ∈ win_300ms peak_val s ->
               fltb (val (b_pass s) x) (val (b_pass s) k) = false).
Proof.
  intros Hp H. unfold probable_peak_step in H. rewrite Hp in H. cbn [bind] in H.
  destruct (map_res _ _) as [vals|] eqn:Ev; cbn [bind] in H; [|discriminate].
  pose proof (map_res_getitem_val _ _ _ Ev) as ->.
  set (mx := pymax_default (map (val (b_pass s)) (win_300ms peak_val s)) (of_Z 0)) in *.
  destruct (fneb mx (of_Z 0)) eqn:Ene; [|left; congruence].
  destruct (positions_eq _ _) as [|x rest] eqn:Ex; [discriminate|].
  injection H as <-. right. exists x.
  destruct (positions_eq_head _ _ _ _ Ex) as (Hx & Heq & Hfirst).
  assert (feqb mx mx = true) as Hmm by (eapply feqb_self_of_eq; eauto).
  assert (exists j, j ∈ win_300ms peak_val s /\ val (b_pass s) j = mx)
    as (j & Hj & Hjv).
  { unfold mx, pymax_default in *.
    destruct (win_300ms peak_val s) as [|i w].
    - simpl in Ene. discriminate.
    - cbn [map] in *.
      destruct (foldl_max2_elem (map (val (b_pass s)) w) (val (b_pass s) i))
        as [E|E].
      + exists i. split; [left | now rewrite E].
      + apply list_elem_of_fmap in E as (j & E & Hj). exists j.
        split; [now right | now rewrite E]. }
  pose proof Hj as Hjr. apply elem_of_arange in Hjr.
  assert (x <= j) as Hxj.
  { destruct (Z_le_gt_dec x j) as [|Hgt]; [assumption|].
    specialize (Hfirst j). rewrite Hjv, Hmm in Hfirst.
    assert (true = false) by (apply Hfirst; lia). discriminate. }
  split; [reflexivity|]. split; [lia|]. split; [lia|]. split; [lia|].
  split; [exists j; rewrite Hjv; auto|].
  split.
  - intros k Hk. rewrite (feqb_sym _ (val (b_pass s) x)).
    destruct (feqb (val (b_pass s) x) (val (b_pass s) k)) eqn:E; [|reflexivity].
    rewrite <- (Hfirst k Hk). rewrite feqb_sym in E.
    rewrite <- Heq. clear - E Heq. revert E Heq.
    generalize (val (b_pass s) k) (val (b_pass s) x). intros a b.
    num_cases. intros H1 H2. q_props.
    destruct (Qeq_bool q q1) eqn:E1, (Qeq_bool q0 q1) eqn:E2; try reflexivity;
      q_props; exfalso; [apply E2 | apply E1]; lra.
  - intros Hnan k Hk.
    rewrite (fltb_feqb_l _ mx) by exact Heq.
    assert (Forall (fun v => v <> NaN) (map (val (b_pass s)) (win_300ms peak_val s)))
      as Hnn.
    { apply Forall_fmap, Forall_forall. intros i Hi.
      apply elem_of_arange in Hi. simpl. apply val_nan_free; [assumption | lia]. }
    unfold mx, pymax_default.
    destruct (win_300ms peak_val s) as [|i w]; [inversion Hk|].
    cbn [map] in *. apply Forall_cons in Hnn as (Hi & Hw).
    destruct (foldl_max2_spec _ _ Hi Hw) as (_ & _ & Hle & Hmax).
    apply elem_of_cons in Hk as [->|Hk]; [exact Hle|].
    apply Hmax. apply list_elem_of_fmap. eauto.
Qed.

Lemma probable_peak_not_right_of_window_witness :
  exists s',
    probable_peak_step 0 (set_peaks [20] c1_extractor) = Ok s' /\
    (s' = set_peaks [20] c1_extractor \/
     exists x,
       s' = set_probable_peaks
              (probable_peaks (set_peaks [20] c1_extractor) ++ [x])
              (set_peaks [20] c1_extractor) /\
       0 <= x /\ x < 20 + win_150ms (set_peaks [20] c1_extractor)).
Proof.
  destruct (probable_peak_step 0 (set_peaks [20] c1_extractor)) as [s'|] eqn:E.
  - exists s'. split; [reflexivity|].
    destruct (probable_peak_not_right_of_window 0
                (set_peaks [20] c1_extractor) s' 20 eq_refl E)
      as [->|(x & -> & H0 & H1 & _)]; [now left|].
    right. exists x. auto.
  - vm_compute in E. discriminate.
Defined.

(** ** The peaks [ecg_searchback] reports *)

Lemma refined_all_hit l w rs out :
  refined l w rs out ->
  Forall (fun r => r - w < Z.min (len l) (r + w + 1)) rs ->
  length out = length rs.
Proof.
  induction 1 as [|r rs out Hle _ IH|r rs pos out Hpos _ IH]; intros HF.
  - reflexivity.
  - apply Forall_cons in HF as (Hr & _). lia.
  - apply Forall_cons in HF as (_ & HF). simpl. now rewrite IH.
Qed.

(** On a NaN-free raw signal whose search windows all start at a valid
    subscript, [ecg_searchback] never raises, and every peak it reports
    lies within [win_200ms] samples of an accepted index and below
    [len(signal)], at a sample that no sample of that window exceeds.  When
    [win_200ms >= 0] and every accepted index is below
    [len(signal) + win_200ms] it reports exactly one peak for each distinct
    accepted index. *)
Theorem ecg_searchback_near_accepted (s : self) :
  result s = [] ->
  nan_free (signal s) ->
  Forall (fun r => win_200ms s - len (signal s) <= r) (r_locs s) ->
  exists s',
    ecg_searchback s = Ok s' /\
    (forall p, p ∈ result s' ->
       exists r, r ∈ r_locs s /\
         r - win_200ms s <= p <= r + win_200ms s /\
         p < len (signal s) /\
         forall k, r - win_200ms s <= k
                     < Z.min (len (signal s)) (r + win_200ms s + 1) ->
                   fltb (val (signal s) p) (val (signal s) k) = false) /\
    (0 <= win_200ms s ->
     Forall (fun r => r < len (signal s) + win_200ms s) (r_locs s) ->
     length (result s') = length (r_locs s')).
Proof.
  intros Hres Hnan Hr.
  destruct (ecg_searchback_spec s Hnan Hr) as (s' & out & E & Hl & Ho & Href).
  exists s'. split; [exact E|]. rewrite Ho, Hres, Hl. cbn [app]. split.
  - intros p Hp. destruct (refined_elem _ _ _ _ Href p Hp) as (r & Hrin & Hf).
    rewrite np_unique_elem in Hrin. exists r. split; [exact Hrin|].
    destruct Hf as (Hpr & Hmax & _). repeat split; try lia. exact Hmax.
  - intros Hw HF. apply (refined_all_hit _ _ _ _ Href).
    apply Forall_forall. intros r Hrin. rewrite np_unique_elem in Hrin.
    rewrite Forall_forall in HF. specialize (HF r Hrin). lia.
Qed.

Lemma ecg_searchback_near_accepted_witness :
  exists s',
    ecg_searchback c6_extractor = Ok s' /\
    (forall p, p ∈ result s' ->
       exists r, r ∈ r_locs c6_extractor /\
         r - win_200ms c6_extractor <= p <= r + win_200ms c6_extractor /\
         p < len (signal c6_extractor)) /\
    length (result s') = length (r_locs s').
Proof.
  destruct (ecg_searchback_near_accepted c6_extractor)
    as (s' & E & Hp & Hn).
  - reflexivity.
  - unfold nan_free. simpl. repeat (constructor; [discriminate|]). constructor.
  - simpl. repeat (constructor; [vm_compute; discriminate|]). constructor.
  - exists s'. split; [exact E|]. split.
    + intros p Hin. destruct (Hp p Hin) as (r & H1 & H2 & H3 & _). eauto.
    + apply Hn; [vm_compute; discriminate|].
      simpl. repeat (constructor; [vm_compute; reflexivity|]). constructor.
Defined.

(** ** What the candidate loop keeps *)

Lemma same_inputs_refl s : same_inputs s s.
Proof. unfold same_inputs. repeat split. Qed.

Lemma same_inputs_trans s1 s2 s3 :
  same_inputs s1 s2 -> same_inputs s2 s3 -> same_inputs s1 s3.
Proof.
  unfold same_inputs. intros (? & ? & ? & ? & ? & ? & ?) (? & ? & ? & ? & ? & ? & ?).
  repeat split; congruence.
Qed.

Lemma rr_only_same s s' :
  rr_only s s' ->
  same_inputs s s' /\ probable_peaks s' = probable_peaks s /\
  r_locs s' = r_locs s.
Proof.
  unfold rr_only, same_inputs. intros H.
  repeat split; rewrite H; reflexivity.
Qed.

Lemma rr2_step_frame i (s : self) avg st' :
  rr2_step i (s, avg) = Ok st' -> rr_only s st'.1.
Proof.
  unfold rr2_step. destruct (getitem (RR1 s) i) as [x|]; cbn [bind]; [|discriminate].
  destruct (fltb (RR_Low_Limit s) x && fltb x (RR_High_Limit s)).
  - destruct (8 <? len (RR2 (set_RR2 (RR2 s ++ [x]) s))).
    + destruct (getitem _ 0); cbn [bind]; [|discriminate].
      intros [= <-]. unfold rr_only. destruct s; reflexivity.
    + intros [= <-]. unfold rr_only. destruct s; reflexivity.
  - intros [= <-]. apply rr_only_refl.
Qed.

Lemma adjust_rr_interval_frame ind (s s' : self) :
  adjust_rr_interval ind s = Ok s' -> rr_only s s'.
Proof.
  unfold adjust_rr_interval.
  set (s0 := set_RR_Average1 _ (set_RR1 _ s)).
  assert (rr_only s s0) as H0 by (unfold rr_only, s0; destruct s; reflexivity).
  intros H.
  destruct (when (8 <=? ind) _ _) as [[s1 a1]|] eqn:E; cbn [bind] in H;
    [|discriminate].
  assert (rr_only s s1) as H1.
  { unfold when in E. destruct (8 <=? ind).
    - apply (for_each_preserves (fun st : self * num => rr_only s st.1)) in E;
        [exact E | | exact H0].
      intros i [s2 a2] st' Hs Hr. eapply rr_only_trans; [exact Hr|].
      eapply rr2_step_frame; eauto.
    - injection E as <- <-. exact H0. }
  destruct ((7 <? len (RR2 s1)) || (ind <? 8)).
  - injection H as <-. unfold rr_only in *. rewrite H1 at 1.
    destruct s; reflexivity.
  - injection H as <-. exact H1.
Qed.

Lemma getitem_valid {A} (l : list A) i x :
  getitem l i = Ok x -> - len l <= i < len l.
Proof.
  unfold getitem, norm_index.
  destruct (Z.leb_spec 0 i); destruct (Z.ltb_spec i (len l)); simpl;
    try (intros; unfold len in *; lia);
    destruct (Z.leb_spec (- len l) i); destruct (Z.ltb_spec i 0); simpl;
    try discriminate; intros; lia.
Qed.

Lemma searchback_frame peak_val RRn sb_win (s s' : self) :
  searchback peak_val RRn sb_win s = Ok s' ->
  same_inputs s s' /\ probable_peaks s' = probable_peaks s /\
  (r_locs s' = r_locs s \/
   exists r, r_locs s' = r_locs s ++ [r] /\ 0 <= r < len (b_pass s)).
Proof.
  unfold searchback. intros H.
  destruct (fgtb RRn (RR_Missed_Limit s)).
  2:{ injection H as <-. split; [apply same_inputs_refl | auto]. }
  destruct (first_max _ _) as [[x_max|]|] eqn:Ex; cbn [bind] in H;
    [| injection H as <-; split; [apply same_inputs_refl | auto]
     | discriminate].
  destruct (getitem (m_win s) x_max) as [v|]; cbn [bind] in H; [|discriminate].
  cbn [b_pass win_150ms Threshold_F1 Threshold_F2 set_SPKI set_Threshold_I1
       set_Threshold_I2 NPKI SPKI Threshold_I1 SPKF NPKF r_locs] in H.
  destruct (first_max _ _) as [[r_max|]|] eqn:Er in H; cbn [bind] in H;
    [| injection H as <-; repeat split; auto | discriminate].
  destruct (getitem (b_pass s) r_max) as [b|] eqn:Eb; cbn [bind] in H;
    [|discriminate].
  destruct (fgtb b (Threshold_F2 s)).
  2:{ injection H as <-. repeat split; auto. }
  injection H as <-. cbn. repeat split; auto. right. exists r_max.
  split; [reflexivity|].
  apply first_max_elem, positions_gt_elem in Er as ((Hr0 & _) & _).
  apply getitem_valid in Eb. lia.
Qed.

Lemma find_t_wave_frame peak_val RRn ind prev_ind (s s' : self) :
  find_t_wave peak_val RRn ind prev_ind s = Ok s' ->
  same_inputs s s' /\ probable_peaks s' = probable_peaks s /\
  (r_locs s' = r_locs s \/
   exists p, r_locs s' = r_locs s ++ [p] /\ p ∈ probable_peaks s).
Proof.
  unfold find_t_wave. intros H.
  destruct (getitem (m_win s) peak_val) as [m|]; cbn [bind] in H; [|discriminate].
  destruct (fgeb m (Threshold_I1 s)).
  - destruct (when _ _ s) as [s1|] eqn:E1; cbn [bind] in H; [|discriminate].
    assert (same_inputs s s1 /\ probable_peaks s1 = probable_peaks s /\
            r_locs s1 = r_locs s) as (Hs1 & Hp1 & Hr1).
    { unfold when in E1.
      destruct ((0 <? ind) && fltb (Fin 0.20) RRn && fltb RRn (Fin 0.36));
        [|injection E1 as <-; repeat split].
      destruct (max_slope peak_val s); cbn [bind] in E1; [|discriminate].
      destruct (getitem (peaks s) prev_ind); cbn [bind] in E1; [|discriminate].
      destruct (max_slope _ s); cbn [bind] in E1; [|discriminate].
      destruct (fltb _ _); [|injection E1 as <-; repeat split].
      cbn [m_win set_T_wave] in E1.
      destruct (getitem (m_win s) peak_val); cbn [bind] in E1; [|discriminate].
      injection E1 as <-. repeat split. }
    destruct (negb (T_wave s1));
      [|injection H as <-; split; [exact Hs1 | auto]].
    destruct (getitem (probable_peaks s1) ind) as [p|] eqn:Ep; cbn [bind] in H;
      [|discriminate].
    destruct Hs1 as (? & ? & ? & ? & ? & ? & ?).
    destruct (fgtb (of_Z p) (Threshold_F1 s1)).
    + destruct (getitem (m_win s1) peak_val); cbn [bind] in H; [|discriminate].
      cbn [b_pass set_SPKI probable_peaks set_SPKF SPKF r_locs] in H.
      destruct (getitem (b_pass s1) ind); cbn [bind] in H; [|discriminate].
      rewrite Ep in H. cbn [bind] in H. injection H as <-. cbn.
      split; [repeat split; assumption|]. split; [assumption|].
      right. exists p. split; [congruence|].
      rewrite <- Hp1. eapply getitem_elem; eauto.
    + destruct (getitem (m_win s1) peak_val); cbn [bind] in H; [|discriminate].
      cbn [b_pass set_SPKI NPKF] in H.
      destruct (getitem (b_pass s1) ind); cbn [bind] in H; [|discriminate].
      injection H as <-. cbn.
      split; [repeat split; assumption|]. split; [assumption | now left].
  - destruct (fltb m (Threshold_I1 s)
              || fltb (Threshold_I1 s) m && fltb m (Threshold_I2 s));
      [|injection H as <-; split; [apply same_inputs_refl | auto]].
    cbn [bind b_pass set_NPKI NPKF] in H.
    destruct (getitem (b_pass s) ind); cbn [bind] in H; [|discriminate].
    injection H as <-. cbn. repeat split. now left.
Qed.

Lemma adjust_thresholds_frame peak_val ind (s s' : self) :
  adjust_thresholds peak_val ind s = Ok s' ->
  same_inputs s s' /\ probable_peaks s' = probable_peaks s /\
  (r_locs s' = r_locs s \/
   exists p, r_locs s' = r_locs s ++ [p] /\ p ∈ probable_peaks s).
Proof.
  unfold adjust_thresholds. intros H.
  destruct (getitem (m_win s) peak_val) as [m|]; cbn [bind] in H; [|discriminate].
  destruct (fgeb m (Threshold_I1 s)).
  - cbn [probable_peaks set_SPKI Threshold_F1 b_pass SPKF NPKF r_locs] in H.
    destruct (getitem (probable_peaks s) ind) as [p|] eqn:Ep; cbn [bind] in H;
      [|discriminate].
    destruct (fgtb (of_Z p) (Threshold_F1 s)).
    + destruct (getitem (b_pass s) ind); cbn [bind] in H; [|discriminate].
      cbn [probable_peaks set_SPKF set_SPKI] in H. rewrite ?Ep in H.
      cbn [bind] in H. injection H as <-. cbn. repeat split.
      right. exists p. split; [reflexivity|]. eapply getitem_elem; eauto.
    + destruct (getitem (b_pass s) ind); cbn [bind] in H; [|discriminate].
      injection H as <-. cbn. repeat split. now left.
  - destruct (fltb m (Threshold_I2 s)
              || fltb (Threshold_I2 s) m && fltb m (Threshold_I1 s));
      [|injection H as <-; split; [apply same_inputs_refl | auto]].
    cbn [b_pass set_NPKI NPKF] in H.
    destruct (getitem (b_pass s) ind); cbn [bind] in H; [|discriminate].
    injection H as <-. cbn. repeat split. now left.
Qed.

Lemma probable_peak_step_frame ind (s s' : self) :
  probable_peak_step ind s = Ok s' ->
  same_inputs s s' /\ r_locs s' = r_locs s /\
  exists pnew, probable_peaks s' = probable_peaks s ++ pnew /\
               (length pnew <= 1)%nat /\
               Forall (fun r => 0 <= r < len (b_pass s)) pnew.
Proof.
  intros H. destruct (probable_peak_step_spec ind s s' H)
    as [->|(p & vals & x & _ & _ & -> & Hx & _)].
  - split; [apply same_inputs_refl|]. split; [reflexivity|].
    exists []. rewrite app_nil_r. repeat split; [simpl; lia | constructor].
  - cbn. repeat split. exists [x]. repeat split; [simpl; lia|].
    constructor; [lia | constructor].
Qed.

(** One turn of the candidate loop: whenever [find_r_peaks_step] returns,
    the signals, the sampling data, the candidate list and [result] are
    as before; [T_wave] is reset and the second thresholds are half the
    first; at most one probable peak was recorded, a valid band-pass
    index; at most two indices were accepted into [r_locs], valid
    band-pass indices as well when the probable peaks already were. *)
Lemma find_r_peaks_step_frame (ind : Z) (s s' : self) :
  find_r_peaks_step ind s = Ok s' ->
  same_inputs s s' /\
  T_wave s' = false /\
  Threshold_I2 s' = fmul (Fin 0.5) (Threshold_I1 s') /\
  Threshold_F2 s' = fmul (Fin 0.5) (Threshold_F1 s') /\
  (exists pnew, probable_peaks s' = probable_peaks s ++ pnew /\
                (length pnew <= 1)%nat /\
                Forall (fun r => 0 <= r < len (b_pass s)) pnew) /\
  (exists rnew, r_locs s' = r_locs s ++ rnew /\
                (length rnew <= 2)%nat /\
                (Forall (fun r => 0 <= r < len (b_pass s)) (probable_peaks s) ->
                 Forall (fun r => 0 <= r < len (b_pass s)) rnew)).
Proof.
  unfold find_r_peaks_step. intros H.
  destruct (getitem (peaks s) ind) as [peak_val|]; cbn [bind] in H;
    [|discriminate].
  destruct (probable_peak_step ind s) as [s1|] eqn:E1; cbn [bind] in H;
    [|discriminate].
  apply probable_peak_step_frame in E1 as (Hs1 & Hr1 & pnew & Hp1 & Hpl & Hpv).
  match type of H with
  | bind ?m _ = _ => destruct m as [s5|] eqn:E5; cbn [bind] in H; [|discriminate]
  end.
  injection H as <-.
  assert (same_inputs s1 s5 /\ probable_peaks s5 = probable_peaks s1 /\
          exists rnew, r_locs s5 = r_locs s1 ++ rnew /\ (length rnew <= 2)%nat /\
            Forall (fun r => (0 <= r < len (b_pass s1)) \/ r ∈ probable_peaks s1)
                   rnew) as (Hs5 & Hp5 & rnew & Hr5 & Hrl & Hrv).
  { destruct ((ind <? len (probable_peaks s1)) && negb (ind =? 0)).
    - destruct (adjust_rr_interval ind s1) as [s2|] eqn:E2; cbn [bind] in E5;
        [|discriminate].
      apply adjust_rr_interval_frame, rr_only_same in E2 as (Hs2 & Hp2 & Hr2).
      match type of E5 with
      | context [searchback _ _ _ ?st] => set (s3 := st) in *
      end.
      assert (same_inputs s2 s3 /\ probable_peaks s3 = probable_peaks s2 /\
              r_locs s3 = r_locs s2) as (Hs3 & Hp3 & Hr3).
      { unfold s3. destruct (fltb _ _ || fgtb _ _); repeat split. }
      destruct (getitem (RR1 s3) (-1)) as [RRn|]; cbn [bind] in E5;
        [|discriminate].
      destruct (round_num _) as [sb_win|]; cbn [bind] in E5; [|discriminate].
      destruct (searchback peak_val RRn sb_win s3) as [s4|] eqn:E4;
        cbn [bind] in E5; [|discriminate].
      apply searchback_frame in E4 as (Hs4 & Hp4 & Hr4).
      apply find_t_wave_frame in E5 as (Hs5 & Hp5 & Hr5).
      assert (same_inputs s1 s4) as H14
        by (eapply same_inputs_trans; [|exact Hs4];
            eapply same_inputs_trans; eauto).
      split; [eapply same_inputs_trans; eauto|].
      split; [congruence|].
      assert (b_pass s3 = b_pass s1) as Hb
        by (destruct Hs2 as (_ & _ & Hb2 & _); destruct Hs3 as (_ & _ & Hb3 & _);
            congruence).
      assert (probable_peaks s4 = probable_peaks s1) as Hpp by congruence.
      rewrite Hb in Hr4. rewrite Hpp in Hr5.
      destruct Hr4 as [Hr4|(r & Hr4 & Hrv)]; destruct Hr5 as [Hr5|(p & Hr5 & Hpv5)].
      + exists []. rewrite app_nil_r. split; [congruence|]. split; [simpl; lia|].
        constructor.
      + exists [p]. split; [congruence|]. split; [simpl; lia|].
        constructor; [now right | constructor].
      + exists [r]. split; [congruence|]. split; [simpl; lia|].
        constructor; [now left | constructor].
      + exists [r; p]. split.
        * rewrite Hr5, Hr4, Hr3, Hr2, <- app_assoc. reflexivity.
        * split; [simpl; lia|].
          constructor; [now left|]. constructor; [now right | constructor].
    - apply adjust_thresholds_frame in E5 as (Hs5 & Hp5 & Hr5).
      split; [exact Hs5|]. split; [exact Hp5|].
      destruct Hr5 as [Hr5|(p & Hr5 & Hpv5)].
      + exists []. rewrite app_nil_r. split; [congruence|]. split; [simpl; lia|].
        constructor.
      + exists [p]. split; [congruence|]. split; [simpl; lia|].
        constructor; [now right | constructor]. }
  assert (same_inputs s s5) as Hs by (eapply same_inputs_trans; eauto).
  split; [exact Hs|]. cbn.
  split; [reflexivity|]. split; [reflexivity|]. split; [reflexivity|].
  split.
  - exists pnew. split; [congruence|]. split; assumption.
  - exists rnew. split; [congruence|]. split; [assumption|].
    intros Hv. destruct Hs1 as (_ & _ & Hb1 & _).
    apply Forall_forall. intros r Hr.
    rewrite Forall_forall in Hrv. destruct (Hrv r Hr) as [H|H].
    + now rewrite Hb1 in H.
    + rewrite Hp1 in H. apply elem_of_app in H as [H|H].
      * rewrite Forall_forall in Hv. auto.
      * rewrite Forall_forall in Hpv. auto.
Qed.

Lemma for_each_bounded {X S} (f : S -> nat) (k : nat)
    (body : X -> S -> res S) xs s s' :
  (forall x s s', body x s = Ok s' -> (f s' <= f s + k)%nat) ->
  for_each xs body s = Ok s' -> (f s' <= f s + k * length xs)%nat.
Proof.
  intros Hb. revert s. induction xs as [|x xs IH]; intros s; simpl.
  - intros [= <-]. lia.
  - destruct (body x s) as [s1|] eqn:E; cbn [bind]; [|discriminate].
    intros H. apply IH in H. apply Hb in E. lia.
Qed.

Lemma find_r_peaks_step_valid ind (s s' : self) :
  find_r_peaks_step ind s = Ok s' ->
  valid_indices s -> same_inputs s s' /\ valid_indices s'.
Proof.
  intros H [Hp Hr].
  destruct (find_r_peaks_step_frame ind s s' H)
    as (Hs & _ & _ & _ & (pnew & Ep & _ & Hpv) & (rnew & Er & _ & Hrv)).
  split; [exact Hs|]. destruct Hs as (_ & _ & Hb & _).
  unfold valid_indices. rewrite Hb, Ep, Er. split; apply Forall_app; auto.
Qed.

Lemma find_r_peaks_loop_same (s s' : self) :
  find_r_peaks_loop s = Ok s' -> same_inputs s s'.
Proof.
  unfold find_r_peaks_loop. intros H.
  eapply (for_each_preserves (same_inputs s));
    [|exact H|apply same_inputs_refl].
  intros x s1 s2 E H1. eapply same_inputs_trans; [exact H1|].
  apply (find_r_peaks_step_frame x s1 s2 E).
Qed.

Lemma find_r_peaks_loop_valid (s s' : self) :
  find_r_peaks_loop s = Ok s' -> valid_indices s -> valid_indices s'.
Proof.
  unfold find_r_peaks_loop. intros H Hv.
  eapply (for_each_preserves valid_indices); [|exact H|exact Hv].
  intros x s1 s2 E H1. now apply (find_r_peaks_step_valid x s1 s2 E).
Qed.

Lemma find_r_peaks_loop_count (s s' : self) :
  find_r_peaks_loop s = Ok s' ->
  (length (probable_peaks s') <= length (probable_peaks s) + length (peaks s))%nat /\
  (length (r_locs s') <= length (r_locs s) + 2 * length (peaks s))%nat.
Proof.
  unfold find_r_peaks_loop. intros H.
  assert (length (arange 0 (len (peaks s))) = length (peaks s)) as Hlen
    by (rewrite length_arange; unfold len; lia).
  split.
  - apply (for_each_bounded (fun s => length (probable_peaks s)) 1) in H.
    + lia.
    + intros x s1 s2 E.
      destruct (find_r_peaks_step_frame x s1 s2 E)
        as (_ & _ & _ & _ & (pnew & -> & Hl & _) & _).
      rewrite length_app. lia.
  - apply (for_each_bounded (fun s => length (r_locs s)) 2) in H.
    + lia.
    + intros x s1 s2 E.
      destruct (find_r_peaks_step_frame x s1 s2 E)
        as (_ & _ & _ & _ & _ & (rnew & -> & Hl & _)).
      rewrite length_app. lia.
Qed.

(** The candidate loop of [find_r_peaks]: whenever it returns, the
    signals, the sampling data, the candidate list and [result] are as
    before; it has recorded at most one probable peak and accepted at
    most two indices per candidate; if the probable peaks and accepted
    indices were valid band-pass indices on entry they all are on exit;
    and after at least one candidate [T_wave] is reset and the second
    thresholds are half the first. *)
Theorem find_r_peaks_loop_keeps (s s' : self) :
  find_r_peaks_loop s = Ok s' ->
  same_inputs s s' /\
  (length (probable_peaks s') <= length (probable_peaks s) + length (peaks s))%nat /\
  (length (r_locs s') <= length (r_locs s) + 2 * length (peaks s))%nat /\
  (valid_indices s -> valid_indices s') /\
  (peaks s <> [] ->
   T_wave s' = false /\
   Threshold_I2 s' = fmul (Fin 0.5) (Threshold_I1 s') /\
   Threshold_F2 s' = fmul (Fin 0.5) (Threshold_F1 s')).
Proof.
  intros H.
  split; [now apply find_r_peaks_loop_same|].
  split; [now apply find_r_peaks_loop_count|].
  split; [now apply find_r_peaks_loop_count|].
  split; [now apply find_r_peaks_loop_valid|].
  intros Hne. unfold find_r_peaks_loop in H.
  assert (0 < len (peaks s)) as Hpos
    by (destruct (peaks s); [congruence | unfold len; simpl; lia]).
  replace (len (peaks s)) with ((len (peaks s) - 1) + 1) in H by lia.
  rewrite arange_snoc, for_each_app in H by lia.
  destruct (for_each _ _ s) as [s1|]; cbn [bind for_each] in H; [|discriminate].
  destruct (find_r_peaks_step _ s1) as [s2|] eqn:E; cbn [bind] in H;
    [|discriminate].
  injection H as <-.
  destruct (find_r_peaks_step_frame _ s1 s2 E) as (_ & Ht & H1 & H2 & _).
  auto.
Qed.

Lemma find_r_peaks_loop_keeps_witness :
  exists s',
    find_r_peaks_loop (set_peaks [20; 60] c3_extractor) = Ok s' /\
    same_inputs (set_peaks [20; 60] c3_extractor) s' /\
    valid_indices s' /\
    (length (r_locs s') <= 4)%nat /\
    T_wave s' = false.
Proof.
  destruct (find_r_peaks_loop (set_peaks [20; 60] c3_extractor)) as [s'|] eqn:E.
  - exists s'. split; [reflexivity|].
    destruct (find_r_peaks_loop_keeps (set_peaks [20; 60] c3_extractor) s' E)
      as (Hs & _ & Hr & Hv & Ht).
    split; [exact Hs|]. split; [apply Hv; split; constructor|].
    split; [exact Hr|]. apply Ht. discriminate.
  - vm_compute in E. discriminate.
Defined.

Lemma approx_peak_frame fft (s s' : self) :
  approx_peak fft s = Ok s' -> exists p, s' = set_peaks p s.
Proof.
  unfold approx_peak. intros H.
  eapply (for_each_preserves (fun s' => exists p, s' = set_peaks p s));
    [|exact H|].
  - intros x s1 s2 E [p ->]. unfold approx_peak_step in E.
    destruct (getitem _ x); cbn [bind] in E; [|discriminate].
    destruct (getitem _ (x - 1)); cbn [bind] in E; [|discriminate].
    destruct (fgtb _ _).
    + destruct (getitem _ (x + 1)); cbn [bind] in E; [|discriminate].
      destruct (fltb _ _); injection E as <-; eauto.
    + injection E as <-. eauto.
  - exists (peaks s). now destruct s.
Qed.

(** [find_r_peaks] on a fresh extractor over a NaN-free raw signal at
    least 200 ms long: whatever it returns is in ascending order, and
    each returned position is the first largest raw sample of the 200 ms
    window around some valid band-pass index, so it lies within 200 ms of
    that index and below the length of the raw signal; there are at most
    two positions per candidate of [approx_peak]. *)
Theorem find_r_peaks_output
    (fftconvolve_same : list num -> list num -> list num)
    (signal : list num) (freq : Q) (d : Pan_Tompkins_QRS.qrs_dict)
    (out : list Z) :
  nan_free signal ->
  py_round (0.2 * freq) <= len signal ->
  find_r_peaks fftconvolve_same (init signal freq d) = Ok out ->
  StronglySorted Z.le out /\
  Forall (fun p =>
            exists r, 0 <= r < len (Pan_Tompkins_QRS.bpass d) /\
                      first_argmax signal (r - py_round (0.2 * freq))
                        (Z.min (len signal) (r + py_round (0.2 * freq) + 1)) p /\
                      - py_round (0.2 * freq) <= p - r <= py_round (0.2 * freq) /\
                      p < len signal)
         out /\
  exists s1, approx_peak fftconvolve_same (init signal freq d) = Ok s1 /\
             (length out <= 2 * length (peaks s1))%nat.
Proof.
  intros Hnan Hw H. unfold find_r_peaks in H.
  destruct (approx_peak _ _) as [s1|] eqn:E1; cbn [bind] in H; [|discriminate].
  destruct (find_r_peaks_loop s1) as [s2|] eqn:E2; cbn [bind] in H;
    [|discriminate].
  destruct (approx_peak_frame _ _ _ E1) as [p ->].
  set (s1 := set_peaks p _) in *.
  pose proof (find_r_peaks_loop_same s1 s2 E2) as Hs.
  destruct (find_r_peaks_loop_count s1 s2 E2) as [_ Hcount].
  destruct (find_r_peaks_loop_valid s1 s2 E2) as [_ Hr]; [split; constructor|].
  destruct Hs as (_ & _ & Hb & Hsig & Hf & _ & Hres).
  change (b_pass s1) with (Pan_Tompkins_QRS.bpass d) in Hb.
  change (R_peak_extractor.signal s1) with signal in Hsig.
  change (samp_freq s1) with freq in Hf.
  change (result s1) with (@nil Z) in Hres.
  assert (win_200ms s2 = py_round (0.2 * freq)) as Hwin
    by (unfold win_200ms; now rewrite Hf).
  destruct (ecg_searchback_spec s2) as (s3 & out' & E3 & Hl3 & Ho3 & Href).
  { now rewrite Hsig. }
  { rewrite Hsig, Hwin. eapply Forall_impl; [exact Hr|]. simpl. intros r Hr'. lia. }
  rewrite E3 in H. cbn [bind] in H. injection H as <-.
  rewrite Ho3, Hres. cbn [app]. rewrite Hsig, Hwin in Href.
  split; [|split].
  - eapply refined_sorted; [apply np_unique_sorted | exact Href].
  - apply Forall_forall. intros q Hq.
    destruct (refined_elem _ _ _ _ Href q Hq) as (r & Hr' & Hfa).
    rewrite np_unique_elem in Hr'. rewrite Forall_forall in Hr.
    exists r. split; [rewrite <- Hb; auto|]. split; [exact Hfa|].
    destruct Hfa as [Hrange _]. lia.
  - exists s1. split; [reflexivity|].
    pose proof (refined_length _ _ _ _ Href) as Hlen.
    assert (length (np_unique (r_locs s2)) <= length (r_locs s2))%nat as Hu.
    { clear. unfold np_unique. induction (r_locs s2) as [|x l IH]; simpl; [lia|].
      etransitivity; [|apply le_n_S, IH].
      generalize (foldr insert_unique [] l). clear. intros l.
      induction l as [|y l IH]; simpl; [lia|].
      destruct (Z.ltb_spec x y); simpl; [lia|].
      destruct (Z.eqb_spec x y); simpl; lia. }
    change (r_locs s1) with (@nil Z) in Hcount.
    change (length (@nil Z)) with 0%nat in Hcount. lia.
Qed.

Lemma find_r_peaks_output_witness :
  StronglySorted Z.le [18; 58] /\
  Forall (fun p => exists r, 0 <= r < len c3_b_pass /\
                             - 4 <= p - r <= 4 /\ p < len c3_signal)
         [18; 58].
Proof.
  destruct (find_r_peaks_output convolve_same c3_signal 20
              {| bpass := c3_b_pass; der := replicate 81 (of_Z 0);
                 sqr := replicate 81 (of_Z 0); mwin := c3_m_win |} [18; 58])
    as (Hs & Hf & _).
  - unfold nan_free. apply Forall_forall. intros v Hv.
    unfold c3_signal in Hv.
    repeat (apply elem_of_app in Hv as [Hv|Hv];
            [first [apply elem_of_replicate in Hv as [-> _]
                   |apply list_elem_of_singleton in Hv as ->]; discriminate|]).
    apply elem_of_replicate in Hv as [-> _]. discriminate.
  - vm_compute. discriminate.
  - vm_compute. reflexivity.
  - split; [exact Hs|].
    eapply Forall_impl; [exact Hf|].
    intros p (r & Hr & _ & Hd & Hp). exists r. split; [exact Hr|].
    split; [exact Hd | exact Hp].
Defined.

(** ** The threshold rules *)

Lemma fgeb_false_lt m t :
  m <> NaN -> t <> NaN -> fgeb m t = false -> fltb m t = true /\ fltb t m = false.
Proof.
  unfold fgeb. intros Hm Ht H. apply orb_false_iff in H as [H1 H2].
  split; [|exact H1].
  destruct m as [x| | |], t as [y| | |]; simpl in *; try congruence.
  apply negb_true_iff. apply negb_false_iff in H1.
  destruct (Qle_bool y x) eqn:E; [|reflexivity].
  apply Qle_bool_iff in E, H1.
  assert (x == y)%Q as Heq by (apply Qle_antisym; assumption).
  apply Qeq_bool_iff in Heq. congruence.
Qed.

(** The noise rules of [find_t_wave] and [adjust_thresholds], for a
    candidate whose integrated value [m] is below [Threshold_I1] and no
    NaN among [m] and the two thresholds: [find_t_wave] always updates
    both noise levels, the second half of its test never deciding;
    [adjust_thresholds] does the same unless [m] equals [Threshold_I2]
    exactly, when it leaves the extractor as it is. *)
Theorem noise_update_rules (peak_val ind prev_ind : Z) (RRn m : num)
    (s : self) :
  getitem (m_win s) peak_val = Ok m ->
  m <> NaN -> Threshold_I1 s <> NaN -> Threshold_I2 s <> NaN ->
  fgeb m (Threshold_I1 s) = false ->
  let noise :=
    b <- getitem (b_pass s) ind ;;
    Ok (set_NPKF (fadd (fmul (Fin 0.125) b) (fmul (Fin 0.875) (NPKF s)))
          (set_NPKI (fadd (fmul (Fin 0.125) m) (fmul (Fin 0.875) (NPKI s)))
             s)) in
  find_t_wave peak_val RRn ind prev_ind s = noise /\
  adjust_thresholds peak_val ind s
  = (if feqb m (Threshold_I2 s) then Ok s else noise).
Proof.
  intros Hm Hn H1 H2 Hge noise.
  destruct (fgeb_false_lt _ _ Hn H1 Hge) as [Hlt Hgt].
  split.
  - unfold find_t_wave. rewrite Hm. cbn [bind]. rewrite Hge, Hlt. cbn [orb bind].
    reflexivity.
  - unfold adjust_thresholds. rewrite Hm. cbn [bind]. rewrite Hge, Hlt.
    rewrite andb_true_r.
    destruct (feqb m (Threshold_I2 s)) eqn:Eq.
    + replace (fltb m (Threshold_I2 s)) with false; [replace (fltb (Threshold_I2 s) m) with false; [reflexivity|]|].
      * destruct m as [x| | |], (Threshold_I2 s) as [y| | |]; simpl in *;
          try congruence.
        apply Qeq_bool_iff in Eq. symmetry. apply negb_false_iff.
        apply Qle_bool_iff. rewrite Eq. apply Qle_refl.
      * destruct m as [x| | |], (Threshold_I2 s) as [y| | |]; simpl in *;
          try congruence.
        apply Qeq_bool_iff in Eq. symmetry. apply negb_false_iff.
        apply Qle_bool_iff. rewrite Eq. apply Qle_refl.
    + replace (fltb m (Threshold_I2 s) || fltb (Threshold_I2 s) m) with true;
        [reflexivity|].
      symmetry.
      destruct m as [x| | |], (Threshold_I2 s) as [y| | |]; simpl in *;
        try congruence.
      destruct (Qle_bool y x) eqn:E1; destruct (Qle_bool x y) eqn:E2;
        simpl; try reflexivity.
      apply Qle_bool_iff in E1, E2.
      assert (x == y)%Q as Heq by (apply Qle_antisym; assumption).
      apply Qeq_bool_iff in Heq. congruence.
Qed.

Lemma noise_update_rules_witness :
  adjust_thresholds 5 0 c2_extractor
  = (if feqb (of_Z 0) (Threshold_I2 c2_extractor) then Ok c2_extractor
     else
       b <- getitem (b_pass c2_extractor) 0 ;;
       Ok (set_NPKF (fadd (fmul (Fin 0.125) b)
                          (fmul (Fin 0.875) (NPKF c2_extractor)))
             (set_NPKI (fadd (fmul (Fin 0.125) (of_Z 0))
                             (fmul (Fin 0.875) (NPKI c2_extractor)))
                c2_extractor))).
Proof.
  apply (noise_update_rules 5 0 0 (of_Z 1) (of_Z 0) c2_extractor).
  - vm_compute. reflexivity.
  - discriminate.
  - vm_compute. discriminate.
  - vm_compute. discriminate.
  - vm_compute. reflexivity.
Defined.

(** A candidate that [find_t_wave] flags as a T wave is never accepted:
    starting with the flag down, a return with the flag up means that the
    candidate is not the first, that the last RR interval lies strictly
    between 0.20 and 0.36, that its steepest rise is below half that of
    the previous candidate, and that nothing but the flag and the
    integrated noise level changed. *)
Theorem t_wave_never_accepted (peak_val ind prev_ind : Z) (RRn : num)
    (s s' : self) :
  T_wave s = false ->
  find_t_wave peak_val RRn ind prev_ind s = Ok s' ->
  T_wave s' = true ->
  0 < ind /\ fltb (Fin 0.20) RRn = true /\ fltb RRn (Fin 0.36) = true /\
  (exists curr prev_peak last,
      max_slope peak_val s = Ok curr /\
      getitem (peaks s) prev_ind = Ok prev_peak /\
      max_slope prev_peak s = Ok last /\
      fltb curr (fmul (Fin 0.5) last) = true) /\
  fgeb (val (m_win s) peak_val) (Threshold_I1 s) = true /\
  s' = set_NPKI (fadd (fmul (Fin 0.125) (val (m_win s) peak_val))
                      (fmul (Fin 0.875) (NPKI s)))
         (set_T_wave true s) /\
  r_locs s' = r_locs s.
Proof.
  intros Hf H Ht. unfold find_t_wave in H.
  destruct (getitem (m_win s) peak_val) as [m|] eqn:Em; cbn [bind] in H;
    [|discriminate].
  assert (val (m_win s) peak_val = m) as -> by (unfold val; now rewrite Em).
  assert (forall s0 : self,
             (if negb (T_wave s) then
                p <- getitem (probable_peaks s) ind ;;
                if fgtb (of_Z p) (Threshold_F1 s) then
                  m <- getitem (m_win s) peak_val ;;
                  let s := set_SPKI (fadd (fmul (Fin 0.125) m)
                                          (fmul (Fin 0.875) (SPKI s))) s in
                  b <- getitem (b_pass s) ind ;;
                  let s := set_SPKF (fadd (fmul (Fin 0.125) b)
                                          (fmul (Fin 0.875) (SPKF s))) s in
                  p <- getitem (probable_peaks s) ind ;;
                  Ok (set_r_locs (r_locs s ++ [p]) s)
                else
                  m <- getitem (m_win s) peak_val ;;
                  let s := set_SPKI (fadd (fmul (Fin 0.125) m)
                                          (fmul (Fin 0.875) (SPKI s))) s in
                  b <- getitem (b_pass s) ind ;;
                  Ok (set_NPKF (fadd (fmul (Fin 0.125) b)
                                     (fmul (Fin 0.875) (NPKF s))) s)
              else Ok s) = Ok s0 -> T_wave s0 = false) as Hdown.
  { intros s0 H0. rewrite Hf in H0. cbn [negb] in H0.
    destruct (getitem (probable_peaks s) ind); cbn [bind] in H0;
      [|discriminate].
    rewrite Em in H0. cbn [bind] in H0.
    destruct (fgtb _ _); cbn [bind b_pass set_SPKI] in H0;
      (destruct (getitem (b_pass s) ind); cbn [bind] in H0; [|discriminate]).
    - cbn [probable_peaks set_SPKF set_SPKI] in H0.
      destruct (getitem (probable_peaks s) ind); cbn [bind] in H0;
        [|discriminate].
      injection H0 as <-. exact Hf.
    - injection H0 as <-. exact Hf. }
  destruct (fgeb m (Threshold_I1 s)) eqn:Ege.
  - destruct ((0 <? ind) && fltb (Fin 0.20) RRn && fltb RRn (Fin 0.36)) eqn:Ec.
    + apply andb_true_iff in Ec as [Ec E2].
      apply andb_true_iff in Ec as [Ei E1].
      cbn [when] in H. cbn beta in H.
      destruct (max_slope peak_val s) as [curr|] eqn:Ecs; cbn [bind] in H;
        [|discriminate].
      destruct (getitem (peaks s) prev_ind) as [pp|] eqn:Ep;
        cbn [bind] in H; [|discriminate].
      destruct (max_slope pp s) as [last|] eqn:El; cbn [bind] in H;
        [|discriminate].
      destruct (fltb curr (fmul (Fin 0.5) last)) eqn:Es; cbn [bind] in H.
      * cbn [m_win set_T_wave] in H. rewrite Em in H.
        cbn [bind T_wave set_NPKI set_T_wave negb] in H.
        injection H as <-.
        split; [lia|]. split; [exact E1|]. split; [exact E2|].
        split; [eauto 10|]. repeat split.
      * apply Hdown in H. congruence.
    + cbn [when bind] in H. apply Hdown in H. congruence.
  - exfalso. destruct (_ || _); cbn [bind] in H.
    + rewrite ?Em in H. cbn [bind b_pass set_NPKI] in H.
      destruct (getitem (b_pass s) ind); cbn [bind] in H; [|discriminate].
      injection H as <-. cbn in Ht. congruence.
    + injection H as <-. congruence.
Qed.

Lemma t_wave_never_accepted_witness :
  let s := set_peaks [2; 7]
             (init (replicate 10 (of_Z 0)) 20
                   {| bpass := replicate 10 (of_Z 0);
                      der := replicate 10 (of_Z 0);
                      sqr := replicate 10 (of_Z 0);
                      mwin := map of_Z [0; 0; 10; 0; 0; 0; 1; 2; 0; 0] |}) in
  let s' := set_NPKI (Fin (1 # 4)) (set_T_wave true s) in
  find_t_wave 7 (Fin 0.25) 1 0 s = Ok s' /\ r_locs s' = r_locs s.
Proof.
  intros s s'.
  assert (find_t_wave 7 (Fin 0.25) 1 0 s = Ok s') as E
    by (vm_compute; reflexivity).
  split; [exact E|].
  apply (t_wave_never_accepted 7 1 0 (Fin 0.25) s s');
    [reflexivity | exact E | reflexivity].
Defined.


